(** * BasicLuaParser: lexer, parser and semantic analyzer of the restricted Lua
    front end, embedded from [lexer.py], [parser.py], [syntaxtree.py] and
    [semantic.py], with the properties of its specification.

    Source text is a [string], a sequence of the code points below 256: the
    character predicates below are Python's [str.isspace], [str.isalpha],
    [str.isdecimal], [str.isdigit], [str.isnumeric] and [str.isalnum] on
    these code points. *)

From Stdlib Require Import ZArith NArith Ascii String List Bool Lia.
From stdpp Require Import base option list strings pretty gmap.

Local Open Scope Z_scope.
Local Open Scope string_scope.

(** ** Tokens ([lexer.py], classes [TokenType] and [Token]) *)

Inductive TokenType :=
  | IDENTIFIER | NUMBER | STRING
  | FUNCTION | IF | THEN | ELSE | END | WHILE | DO | RETURN | LOCAL
  | ASSIGN | PLUS | MINUS | STAR | SLASH | LPAREN | RPAREN | COMMA | SEMICOLON
  | GREATER | GREATER_EQUAL | LESS | LESS_EQUAL | EQUAL_EQUAL | DOTDOT
  | EOF.

#[global] Instance TokenType_eq_dec : EqDecision TokenType.
Proof. solve_decision. Defined.

(** The payload of a token: the lexeme text, the [int] or the [float] of a
    number literal (the float is kept as the decimal text handed to
    [float(...)]), or [None]. *)
Inductive pyvalue :=
  | VStr (s : string)
  | VInt (n : N)
  | VFloat (s : string)
  | VNone.

#[global] Instance pyvalue_eq_dec : EqDecision pyvalue.
Proof. solve_decision. Defined.

Module Token.
Record t := mk { type : TokenType; value : pyvalue; line : Z; column : Z }.
End Token.

#[global] Instance Token_eq_dec : EqDecision Token.t.
Proof. solve_decision. Defined.

(** ** Characters *)

Definition code (c : ascii) : N := N_of_ascii c.

Definition in_range (lo hi : N) (c : ascii) : bool :=
  ((lo <=? code c) && (code c <=? hi))%N.

(** The digits [0] to [9]. *)
Definition isdecimal (c : ascii) : bool := in_range 48 57 c.

(** The decimal digits and the superscripts two, three and one. *)
Definition isdigit (c : ascii) : bool :=
  isdecimal c || in_range 178 179 c || in_range 185 185 c.

(** The digits and the fractions one quarter, one half, three quarters. *)
Definition isnumeric (c : ascii) : bool := isdigit c || in_range 188 190 c.

(** The ASCII letters, the ordinal indicators, the micro sign and the
    accented letters. *)
Definition isalpha (c : ascii) : bool :=
  in_range 65 90 c || in_range 97 122 c
  || in_range 170 170 c || in_range 181 181 c || in_range 186 186 c
  || in_range 192 214 c || in_range 216 246 c || in_range 248 255 c.

Definition isalnum (c : ascii) : bool := isalpha c || isdigit c || isnumeric c.

(** The ASCII blanks and separators, next line and no-break space. *)
Definition isspace (c : ascii) : bool :=
  in_range 9 13 c || in_range 28 32 c
  || in_range 133 133 c || in_range 160 160 c.

Definition newline : ascii := "010"%char.
Definition NUL : ascii := "000"%char.
Definition dquote : ascii := "034"%char.
Definition squote : ascii := "039"%char.

Definition chr_eqb (a b : ascii) : bool := Ascii.eqb a b.

(** The value of a text of decimal digits. *)
Fixpoint int_of_digits (acc : N) (s : string) : N :=
  match s with
  | EmptyString => acc
  | String c s' => int_of_digits (10 * acc + (code c - 48)) s'
  end.

Fixpoint contains_char (c : ascii) (s : string) : bool :=
  match s with
  | EmptyString => false
  | String d s' => chr_eqb c d || contains_char c s'
  end.

Fixpoint all_chars (P : ascii -> bool) (s : string) : bool :=
  match s with
  | EmptyString => true
  | String c s' => P c && all_chars P s'
  end.

(** CPython's default [sys.int_max_str_digits]: [int] refuses a text of more
    digits. *)
Definition int_max_str_digits : nat := 4300.

(** [int(value)] on the texts [Lexer.number] builds, made of characters
    [str.isdigit] accepts: [None] is the [ValueError] that [int] raises on
    the empty text, on a character that is no decimal digit (a superscript
    digit) and on a text of more than [int_max_str_digits] digits. *)
Definition python_int (value : string) : option N :=
  if negb (String.eqb value "")
     && all_chars isdecimal value
     && (String.length value <=? int_max_str_digits)%nat
  then Some (int_of_digits 0 value)
  else None.

Fixpoint count_char (c : ascii) (s : string) : nat :=
  match s with
  | EmptyString => 0
  | String d s' => (if chr_eqb c d then 1 else 0) + count_char c s'
  end.

(** [float(value)] on the texts [Lexer.number] builds, made of characters
    [str.isdigit] accepts and of [.]: the float is kept as its text; [None]
    is the [ValueError] that [float] raises on a character that is no
    decimal digit, on a second [.] and on a text without a digit. *)
Definition python_float (value : string) : option pyvalue :=
  if all_chars (fun c => isdecimal c || chr_eqb c ".") value
     && (count_char "." value <=? 1)%nat
     && negb (all_chars (chr_eqb ".") value)
  then Some (VFloat value)
  else None.

(** ** Lexer ([lexer.py], class [Lexer]) *)

(** What the lexer prints: [Unexpected character: <c> at line <l>, column <k>]
    and [Unterminated string at line <l>]. *)
Inductive diagnostic :=
  | UnexpectedCharacter (c : ascii) (line column : Z)
  | UnterminatedString (line : Z).

#[global] Instance diagnostic_eq_dec : EqDecision diagnostic.
Proof. solve_decision. Defined.

Module Lexer.

Record t := mk {
  source : string;
  tokens : list Token.t;
  start : nat;
  current : nat;
  line : Z;
  column : Z;
  printed : list diagnostic
}.

Definition init (src : string) : t :=
  mk src [] 0 0 1 1 [].

Definition keywords (text : string) : option TokenType :=
  if String.eqb text "function" then Some FUNCTION
  else if String.eqb text "if" then Some IF
  else if String.eqb text "then" then Some THEN
  else if String.eqb text "else" then Some ELSE
  else if String.eqb text "end" then Some END
  else if String.eqb text "while" then Some WHILE
  else if String.eqb text "do" then Some DO
  else if String.eqb text "return" then Some RETURN
  else if String.eqb text "local" then Some LOCAL
  else None.

Definition is_at_end (l : t) : bool :=
  (String.length (source l) <=? current l)%nat.

(** [source[start:current]] *)
Definition slice (s : string) (from to : nat) : string :=
  String.substring from (to - from) s.

(** The routines of the lexer return [None] when Python raises: the
    [IndexError] of [advance] reading past the end, the [ValueError] of
    [int] and [float] in [number]. *)
Definition advance (l : t) : option (ascii * t) :=
  match String.get (current l) (source l) with
  | Some c =>
      Some (c, mk (source l) (tokens l) (start l) (S (current l))
                  (line l) (column l + 1) (printed l))
  | None => None
  end.

Definition peek (l : t) : ascii :=
  if is_at_end l then NUL
  else match String.get (current l) (source l) with
       | Some c => c
       | None => NUL
       end.

Definition peek_next (l : t) : ascii :=
  if (String.length (source l) <=? current l + 1)%nat then NUL
  else match String.get (current l + 1) (source l) with
       | Some c => c
       | None => NUL
       end.

Definition add_token (ty : TokenType) (v : option pyvalue) (l : t) : t :=
  let text := slice (source l) (start l) (current l) in
  let tok :=
    Token.mk ty
      (match v with Some x => x | None => VStr text end)
      (line l)
      (column l - (Z.of_nat (current l) - Z.of_nat (start l))) in
  mk (source l) (tokens l ++ [tok]) (start l) (current l)
     (line l) (column l) (printed l).

Definition print (d : diagnostic) (l : t) : t :=
  mk (source l) (tokens l) (start l) (current l)
     (line l) (column l) (printed l ++ [d]).

Definition next_line (l : t) : t :=
  mk (source l) (tokens l) (start l) (current l)
     (line l + 1) 1 (printed l).

Definition set_start (l : t) : t :=
  mk (source l) (tokens l) (current l) (current l)
     (line l) (column l) (printed l).

(** [while cond: body], the loop counter bounding the iterations; [None]
    when the bound is used up or the body fails. *)
Fixpoint while (fuel : nat) (cond : t -> bool) (body : t -> option t)
    (l : t) : option t :=
  if cond l then
    match fuel with
    | O => None
    | S fuel' => l' ← body l; while fuel' cond body l'
    end
  else Some l.

Definition remaining (l : t) : nat := (String.length (source l) - current l)%nat.

Definition step (l : t) : option t := snd <$> advance l.

Definition identifier (l : t) : option t :=
  l ← while (remaining l)
        (fun l => (isalnum (peek l) || chr_eqb (peek l) "_") && negb (is_at_end l))
        step l;
  let text := slice (source l) (start l) (current l) in
  let type := default IDENTIFIER (keywords text) in
  Some (add_token type None l).

Definition digits (l : t) : option t :=
  while (remaining l) (fun l => isdigit (peek l) && negb (is_at_end l)) step l.

Definition number (l : t) : option t :=
  l ← digits l;
  l ← (if chr_eqb (peek l) "." && isdigit (peek_next l)
       then l ← step l; digits l
       else Some l);
  let value := slice (source l) (start l) (current l) in
  if contains_char "." value
  then v ← python_float value; Some (add_token NUMBER (Some v) l)
  else n ← python_int value; Some (add_token NUMBER (Some (VInt n)) l).

Definition string (quote_char : ascii) (l : t) : option t :=
  l ← while (remaining l)
        (fun l => negb (chr_eqb (peek l) quote_char) && negb (is_at_end l))
        (fun l =>
           let l := if chr_eqb (peek l) newline then next_line l else l in
           step l)
        l;
  if is_at_end l then Some (print (UnterminatedString (line l)) l)
  else
    l ← step l;
    let value := slice (source l) (start l + 1) (current l - 1) in
    Some (add_token STRING (Some (VStr value)) l).

Definition comment (l : t) : option t :=
  while (remaining l)
    (fun l => negb (chr_eqb (peek l) newline) && negb (is_at_end l)) step l.

(** The two-character operators: [single] alone, [double] when the next
    character is [second]. *)
Definition one_or_two (second : ascii) (double single : TokenType) (l : t)
    : option t :=
  if chr_eqb (peek l) second
  then l ← step l; Some (add_token double None l)
  else Some (add_token single None l).

Definition scan_token (l : t) : option t :=
  '(char, l) ← advance l;
  if isspace char then
    if chr_eqb char newline then Some (next_line l) else Some l
  else if isalpha char || chr_eqb char "_" then identifier l
  else if isdigit char then number l
  else if chr_eqb char dquote || chr_eqb char squote then string char l
  else if chr_eqb char "=" then one_or_two "=" EQUAL_EQUAL ASSIGN l
  else if chr_eqb char ">" then one_or_two "=" GREATER_EQUAL GREATER l
  else if chr_eqb char "<" then one_or_two "=" LESS_EQUAL LESS l
  else if chr_eqb char "+" then Some (add_token PLUS None l)
  else if chr_eqb char "-" then
    if chr_eqb (peek l) "-" then comment l
    else Some (add_token MINUS None l)
  else if chr_eqb char "*" then Some (add_token STAR None l)
  else if chr_eqb char "/" then Some (add_token SLASH None l)
  else if chr_eqb char "(" then Some (add_token LPAREN None l)
  else if chr_eqb char ")" then Some (add_token RPAREN None l)
  else if chr_eqb char "," then Some (add_token COMMA None l)
  else if chr_eqb char ";" then Some (add_token SEMICOLON None l)
  else if chr_eqb char "." then
    if chr_eqb (peek l) "."
    then l ← step l; Some (add_token DOTDOT None l)
    else Some (print (UnexpectedCharacter char (line l) (column l)) l)
  else Some (print (UnexpectedCharacter char (line l) (column l)) l).

Definition scan_loop (fuel : nat) (l : t) : option t :=
  while fuel (fun l => negb (is_at_end l))
    (fun l => scan_token (set_start l)) l.

(** [Lexer(source)]: the constructor runs [tokenize]; the result is the
    token list and what was printed. *)
Definition tokenize (src : String.string)
    : option (list Token.t * list diagnostic) :=
  l ← scan_loop (String.length src) (init src);
  Some ((tokens l ++ [Token.mk EOF VNone (line l) (column l)])%list, printed l).

End Lexer.

(** ** Results of fallible code *)

Inductive result (E A : Type) :=
  | Ok (a : A)
  | Raise (e : E).
Arguments Ok {E A} a.
Arguments Raise {E A} e.

(** ** Syntax tree ([syntaxtree.py]) *)

#[local] Unset Elimination Schemes.

Inductive Node :=
  | NumberNode (value : pyvalue)
  | StringNode (value : pyvalue)
  | VariableNode (name : string)
  | BinaryOpNode (left : Node) (op : Token.t) (right : Node)
  | AssignmentNode (variable : string) (value : Node)
  | IfNode (condition then_branch : Node) (else_branch : option Node)
  | WhileNode (condition body : Node)
  | FunctionNode (name : string) (params : list string) (body : Node)
  | FunctionCallNode (name : string) (arguments : list Node)
  | ReturnNode (value : option Node)
  | BlockNode (statements : list Node).

#[local] Set Elimination Schemes.

(** Induction over the tree, through the lists and options of nodes. *)
Section NodeInduction.
Variable P : Node -> Prop.
Hypothesis HNumber : forall v, P (NumberNode v).
Hypothesis HString : forall v, P (StringNode v).
Hypothesis HVariable : forall x, P (VariableNode x).
Hypothesis HBinaryOp : forall l op r, P l -> P r -> P (BinaryOpNode l op r).
Hypothesis HAssignment : forall x v, P v -> P (AssignmentNode x v).
Hypothesis HIf : forall c t e,
  P c -> P t -> from_option P True e -> P (IfNode c t e).
Hypothesis HWhile : forall c b, P c -> P b -> P (WhileNode c b).
Hypothesis HFunction : forall f ps b, P b -> P (FunctionNode f ps b).
Hypothesis HCall : forall f args, Forall P args -> P (FunctionCallNode f args).
Hypothesis HReturn : forall v, from_option P True v -> P (ReturnNode v).
Hypothesis HBlock : forall stmts, Forall P stmts -> P (BlockNode stmts).

Fixpoint Node_induction (n : Node) : P n :=
  match n with
  | NumberNode v => HNumber v
  | StringNode v => HString v
  | VariableNode x => HVariable x
  | BinaryOpNode l op r =>
      HBinaryOp l op r (Node_induction l) (Node_induction r)
  | AssignmentNode x v => HAssignment x v (Node_induction v)
  | IfNode c t e =>
      HIf c t e (Node_induction c) (Node_induction t)
        (match e return from_option P True e with
         | Some e0 => Node_induction e0
         | None => I
         end)
  | WhileNode c b => HWhile c b (Node_induction c) (Node_induction b)
  | FunctionNode f ps b => HFunction f ps b (Node_induction b)
  | FunctionCallNode f args =>
      HCall f args
        ((fix all (l : list Node) : Forall P l :=
            match l with
            | [] => @List.Forall_nil _ P
            | x :: l' => @List.Forall_cons _ P x l' (Node_induction x) (all l')
            end) args)
  | ReturnNode v =>
      HReturn v
        (match v return from_option P True v with
         | Some v0 => Node_induction v0
         | None => I
         end)
  | BlockNode stmts =>
      HBlock stmts
        ((fix all (l : list Node) : Forall P l :=
            match l with
            | [] => @List.Forall_nil _ P
            | x :: l' => @List.Forall_cons _ P x l' (Node_induction x) (all l')
            end) stmts)
  end.
End NodeInduction.

(** ** Parser ([parser.py], class [Parser]) *)

Module Parser.

(** [ParseError] with its message and the token whose position the message
    quotes; [IndexError] for a read past the token list; [OutOfFuel] when
    the recursion bound of the embedding is used up. *)
Inductive failure :=
  | ParseError (message : string) (tok : Token.t)
  | IndexError
  | OutOfFuel.

(** The parser's [tokens] and [current], kept as the tokens from [current]
    on ([ahead] is [tokens[current:]]) and the token before them ([before]
    is [tokens[current - 1]], at [current = 0] Python's [tokens[-1]]). *)
Record t := mk { before : Token.t; ahead : list Token.t }.

Definition parser (A : Type) : Type := t -> result failure (A * t).

Definition ret {A} (a : A) : parser A := fun p => Ok (a, p).

Definition bind {A B} (m : parser A) (k : A -> parser B) : parser B :=
  fun p => match m p with
           | Ok (a, p') => k a p'
           | Raise e => Raise e
           end.

Definition raise {A} (e : failure) : parser A := fun _ => Raise e.

Declare Scope parser_scope.
Delimit Scope parser_scope with parser.
Notation "'let*' x := m 'in' k" := (bind m (fun x => k))
  (at level 10, x name, m at level 100, k at level 200) : parser_scope.
Notation "m ;; k" := (bind m (fun _ => k))
  (at level 100, right associativity) : parser_scope.
Local Open Scope parser_scope.

Definition peek : parser Token.t :=
  fun p => match ahead p with
           | tok :: _ => Ok (tok, p)
           | [] => Raise IndexError
           end.

Definition previous : parser Token.t := fun p => Ok (before p, p).

Definition is_at_end : parser bool :=
  let* tok := peek in ret (bool_decide (Token.type tok = EOF)).

Definition advance : parser Token.t :=
  let* e := is_at_end in
  (if e then ret tt
   else fun p => Ok (tt, mk (hd (before p) (ahead p)) (tl (ahead p))));;
  previous.

Definition check (type : TokenType) : parser bool :=
  let* e := is_at_end in
  if e then ret false
  else let* tok := peek in ret (bool_decide (Token.type tok = type)).

Fixpoint match_ (types : list TokenType) : parser bool :=
  match types with
  | [] => ret false
  | type :: types' =>
      let* c := check type in
      if c then advance;; ret true else match_ types'
  end.

Definition consume (type : TokenType) (message : string) : parser Token.t :=
  let* c := check type in
  if c then advance
  else let* tok := peek in raise (ParseError message tok).

Definition peek_next : parser Token.t :=
  fun p => match ahead p with
           | _ :: tok :: _ => Ok (tok, p)
           | _ => Ok (Token.mk EOF VNone 0 0, p)
           end.

(** The text an identifier token carries: [add_token] stores the lexeme. *)
Definition text_of (v : pyvalue) : string :=
  match v with
  | VStr s => s
  | VFloat s => s
  | VInt _ | VNone => ""
  end.

(** The loop of one precedence layer:
    [while self.match(types): operator = self.previous(); right = operand();
     expr = BinaryOpNode(expr, operator, right)]. *)
Fixpoint binary_loop (fuel : nat) (types : list TokenType)
    (operand : parser Node) (expr : Node) : parser Node :=
  let* m := match_ types in
  if m then
    match fuel with
    | O => raise OutOfFuel
    | S fuel' =>
        let* operator := previous in
        let* right := operand in
        binary_loop fuel' types operand (BinaryOpNode expr operator right)
    end
  else ret expr.

(** [while self.match(COMMA): arguments.append(self.parse_expression())] *)
Fixpoint arguments_loop (fuel : nat) (parse_expression : parser Node)
    (arguments : list Node) : parser (list Node) :=
  let* m := match_ [COMMA] in
  if m then
    match fuel with
    | O => raise OutOfFuel
    | S fuel' =>
        let* e := parse_expression in
        arguments_loop fuel' parse_expression (arguments ++ [e])%list
    end
  else ret arguments.

Definition parse_arguments (fuel : nat) (parse_expression : parser Node)
    : parser (list Node) :=
  let* c := check RPAREN in
  if negb c then
    let* e := parse_expression in
    arguments_loop fuel parse_expression [e]
  else ret [].

Definition parse_primary (fuel : nat) (parse_expression : parser Node)
    : parser Node :=
  let* m := match_ [NUMBER] in
  if m then let* tok := previous in ret (NumberNode (Token.value tok))
  else
  let* m := match_ [STRING] in
  if m then let* tok := previous in ret (StringNode (Token.value tok))
  else
  let* m := match_ [IDENTIFIER] in
  if m then
    let* tok := previous in
    let name := text_of (Token.value tok) in
    let* m := match_ [LPAREN] in
    if m then
      let* arguments := parse_arguments fuel parse_expression in
      consume RPAREN "Expected ')' after function arguments";;
      ret (FunctionCallNode name arguments)
    else ret (VariableNode name)
  else
  let* m := match_ [LPAREN] in
  if m then
    let* expr := parse_expression in
    consume RPAREN "Expected ')' after expression";;
    ret expr
  else
  let* tok := peek in raise (ParseError "Unexpected token" tok).

Definition parse_multiplicative (fuel : nat) (parse_expression : parser Node)
    : parser Node :=
  let* expr := parse_primary fuel parse_expression in
  binary_loop fuel [STAR; SLASH] (parse_primary fuel parse_expression) expr.

Definition parse_additive (fuel : nat) (parse_expression : parser Node)
    : parser Node :=
  let* expr := parse_multiplicative fuel parse_expression in
  binary_loop fuel [PLUS; MINUS]
    (parse_multiplicative fuel parse_expression) expr.

Definition parse_comparison (fuel : nat) (parse_expression : parser Node)
    : parser Node :=
  let* expr := parse_additive fuel parse_expression in
  binary_loop fuel [EQUAL_EQUAL; GREATER; GREATER_EQUAL; LESS; LESS_EQUAL]
    (parse_additive fuel parse_expression) expr.

Definition parse_concat (fuel : nat) (parse_expression : parser Node)
    : parser Node :=
  let* expr := parse_comparison fuel parse_expression in
  binary_loop fuel [DOTDOT] (parse_comparison fuel parse_expression) expr.

Fixpoint parse_expression (fuel : nat) : parser Node :=
  match fuel with
  | O => raise OutOfFuel
  | S fuel' => parse_concat fuel' (parse_expression fuel')
  end.

Definition parse_expression_statement (fuel : nat) : parser Node :=
  let* expr := parse_expression fuel in
  match_ [SEMICOLON];;
  ret expr.

Definition parse_return_statement (fuel : nat) : parser Node :=
  let* e := check END in
  let* s := check ELSE in
  let* value :=
    (if negb e && negb s
     then let* v := parse_expression fuel in ret (Some v)
     else ret None) in
  match_ [SEMICOLON];;
  ret (ReturnNode value).

Definition parse_assignment (fuel : nat) : parser Node :=
  let* prev := previous in
  let* name :=
    (if bool_decide (Token.type prev = LOCAL)
     then let* tok := consume IDENTIFIER "Expected variable name after 'local'" in
          ret (text_of (Token.value tok))
     else let* tok := advance in ret (text_of (Token.value tok))) in
  consume ASSIGN "Expected '=' after variable name";;
  let* value := parse_expression fuel in
  match_ [SEMICOLON];;
  ret (AssignmentNode name value).

(** [any(self.check(t) for t in terminator_tokens)] *)
Fixpoint check_any (types : list TokenType) : parser bool :=
  match types with
  | [] => ret false
  | type :: types' =>
      let* c := check type in
      if c then ret true else check_any types'
  end.

Fixpoint parse_statement_list (fuel : nat) (parse_statement : parser Node)
    (terminator_tokens : list TokenType) (statements : list Node)
    : parser (list Node) :=
  let* e := is_at_end in
  let* t := (if e then ret false else check_any terminator_tokens) in
  if negb e && negb t then
    match fuel with
    | O => raise OutOfFuel
    | S fuel' =>
        let* s := parse_statement in
        parse_statement_list fuel' parse_statement terminator_tokens
          (statements ++ [s])%list
    end
  else ret statements.

Definition parse_if_statement (fuel : nat) (parse_statement : parser Node)
    : parser Node :=
  let* condition := parse_expression fuel in
  consume THEN "Expected 'then' after if";;
  let* stmts := parse_statement_list fuel parse_statement [ELSE; END] [] in
  let then_branch := BlockNode stmts in
  let* m := match_ [ELSE] in
  let* else_branch :=
    (if m
     then let* stmts := parse_statement_list fuel parse_statement [END] [] in
          ret (Some (BlockNode stmts))
     else ret None) in
  consume END "Expected 'end' after if/else block";;
  ret (IfNode condition then_branch else_branch).

Definition parse_while_statement (fuel : nat) (parse_statement : parser Node)
    : parser Node :=
  let* condition := parse_expression fuel in
  consume DO "Expected 'do' after while condition";;
  let* stmts := parse_statement_list fuel parse_statement [END] [] in
  consume END "Expected 'end' after while body";;
  ret (WhileNode condition (BlockNode stmts)).

(** [while self.match(COMMA): parameters.append(self.consume(...).value)] *)
Fixpoint parameters_loop (fuel : nat) (parameters : list string)
    : parser (list string) :=
  let* m := match_ [COMMA] in
  if m then
    match fuel with
    | O => raise OutOfFuel
    | S fuel' =>
        let* tok := consume IDENTIFIER "Expected parameter name" in
        parameters_loop fuel' (parameters ++ [text_of (Token.value tok)])%list
    end
  else ret parameters.

Definition parse_function_definition (fuel : nat)
    (parse_statement : parser Node) : parser Node :=
  let* name := consume IDENTIFIER "Expected function name" in
  consume LPAREN "Expected '(' after function name";;
  let* c := check RPAREN in
  let* parameters :=
    (if negb c
     then let* tok := consume IDENTIFIER "Expected parameter name" in
          parameters_loop fuel [text_of (Token.value tok)]
     else ret []) in
  consume RPAREN "Expected ')' after parameters";;
  let* stmts := parse_statement_list fuel parse_statement [END] [] in
  consume END "Expected 'end' after function body";;
  ret (FunctionNode (text_of (Token.value name)) parameters (BlockNode stmts)).

Fixpoint parse_statement (fuel : nat) : parser Node :=
  match fuel with
  | O => raise OutOfFuel
  | S fuel' =>
      let* m := match_ [IF] in
      if m then parse_if_statement fuel' (parse_statement fuel') else
      let* m := match_ [WHILE] in
      if m then parse_while_statement fuel' (parse_statement fuel') else
      let* m := match_ [FUNCTION] in
      if m then parse_function_definition fuel' (parse_statement fuel') else
      let* m := match_ [RETURN] in
      if m then parse_return_statement fuel' else
      let* m := match_ [LOCAL] in
      if m then parse_assignment fuel' else
      let* c := check IDENTIFIER in
      let* n := (if c then let* tok := peek_next in
                           ret (bool_decide (Token.type tok = ASSIGN))
                 else ret false) in
      if n then parse_assignment fuel'
      else parse_expression_statement fuel'
  end.

(** [Parser(tokens).parse()]: the loop [while not self.is_at_end():
    statements.append(self.parse_statement())] is the statement list without
    terminator tokens; the length of the token list bounds the recursion. *)
Definition parse (tokens : list Token.t) : result failure Node :=
  let fuel := S (length tokens) in
  match parse_statement_list fuel (parse_statement fuel) [] []
          (mk (List.last tokens (Token.mk EOF VNone 0 0)) tokens) with
  | Ok (statements, _) => Ok (BlockNode statements)
  | Raise e => Raise e
  end.

End Parser.

(** ** Symbol table ([semantic.py], class [SymbolTable]) *)

(** The types of the analyzer are the Python strings ["number"], ["string"],
    ["boolean"] and ["any"]; [None] is the type of a statement. *)
Inductive ty := TNumber | TString | TBoolean | TAny.

#[global] Instance ty_eq_dec : EqDecision ty.
Proof. solve_decision. Defined.

Abbreviation pytype := (option ty).

Inductive semantic_error :=
  | DuplicateDeclaration (name : string)
  | UndefinedVariable (name : string)
  | DuplicateFunction (name : string)
  | UndefinedFunction (name : string)
  | TypeMismatch (left_type right_type : pytype) (line column : Z)
  | IfConditionTypeError (condition_type : pytype)
  | WhileConditionTypeError (condition_type : pytype)
  | ArityMismatch (name : string) (param_count given : nat)
  | ReturnOutsideFunction.

(** What the analyzer raises: [SemanticError], or Python's [AttributeError]
    when [node.body.statements] is read on a body that is no [BlockNode]. *)
Inductive exception :=
  | SemanticError (e : semantic_error)
  | AttributeError.

#[global] Instance semantic_error_eq_dec : EqDecision semantic_error.
Proof. solve_decision. Defined.

#[global] Instance exception_eq_dec : EqDecision exception.
Proof. solve_decision. Defined.

Definition type_name (t : pytype) : string :=
  match t with
  | Some TNumber => "number"
  | Some TString => "string"
  | Some TBoolean => "boolean"
  | Some TAny => "any"
  | None => "None"
  end.

(** The text of each [SemanticError]. *)
Definition message (e : semantic_error) : string :=
  match e with
  | DuplicateDeclaration name =>
      "Variable '" +:+ name +:+ "' is already declared in this scope"
  | UndefinedVariable name => "Undefined variable '" +:+ name +:+ "'."
  | DuplicateFunction name => "Function '" +:+ name +:+ "' is already defined."
  | UndefinedFunction name => "Undefined function '" +:+ name +:+ "'."
  | TypeMismatch l r line column =>
      "Cannot perform arithmetic between " +:+ type_name l +:+ " and "
      +:+ type_name r +:+ " at line " +:+ pretty line +:+ ", column "
      +:+ pretty column
  | IfConditionTypeError t => "If condition must be boolean, got " +:+ type_name t
  | WhileConditionTypeError t =>
      "While condition must be boolean, got " +:+ type_name t
  | ArityMismatch name param_count given =>
      "Function '" +:+ name +:+ "' expects " +:+ pretty param_count
      +:+ " arguments but got " +:+ pretty given +:+ "."
  | ReturnOutsideFunction => "Return statement outside of function."
  end.

#[local] Unset Elimination Schemes.

(** A scope and, through [parent], the chain of its enclosing scopes. *)
Inductive SymbolTable := mkSymbolTable {
  variables : gmap string pytype;
  functions : gmap string (nat * list ty * pytype);
  parent : option SymbolTable
}.

#[local] Set Elimination Schemes.

Definition new_table (parent : option SymbolTable) : SymbolTable :=
  mkSymbolTable ∅ ∅ parent.

Definition declare_variable (name : string) (var_type : pytype)
    (s : SymbolTable) : result exception SymbolTable :=
  match variables s !! name with
  | Some _ => Raise (SemanticError (DuplicateDeclaration name))
  | None =>
      Ok (mkSymbolTable (<[name := var_type]> (variables s)) (functions s)
            (parent s))
  end.

Fixpoint get_variable (name : string) (s : SymbolTable)
    : result exception pytype :=
  match s with
  | mkSymbolTable vars _ par =>
      match vars !! name with
      | Some t => Ok t
      | None =>
          match par with
          | Some p => get_variable name p
          | None => Raise (SemanticError (UndefinedVariable name))
          end
      end
  end.

Definition declare_function (name : string) (param_count : nat)
    (param_types : list ty) (return_type : pytype) (s : SymbolTable)
    : result exception SymbolTable :=
  match functions s !! name with
  | Some _ => Raise (SemanticError (DuplicateFunction name))
  | None =>
      Ok (mkSymbolTable (variables s)
            (<[name := (param_count, param_types, return_type)]> (functions s))
            (parent s))
  end.

Fixpoint get_function (name : string) (s : SymbolTable)
    : result exception (nat * list ty * pytype) :=
  match s with
  | mkSymbolTable _ funs par =>
      match funs !! name with
      | Some info => Ok info
      | None =>
          match par with
          | Some p => get_function name p
          | None => Raise (SemanticError (UndefinedFunction name))
          end
      end
  end.

(** ** Semantic analyzer ([semantic.py], class [SemanticAnalyzer]) *)

Module Analyzer.

(** The analyzer's two fields. [symbol_table] is the innermost scope; the
    scope it was created from is its [parent], so that restoring
    [old_symbol_table] after a nested construct is taking the parent of the
    scope that was pushed for it. *)
Record t := mk {
  symbol_table : SymbolTable;
  current_function : option string
}.

Definition analysis (A : Type) : Type := t -> result exception (A * t).

Definition ret {A} (a : A) : analysis A := fun a0 => Ok (a, a0).

Definition bind {A B} (m : analysis A) (k : A -> analysis B) : analysis B :=
  fun a0 => match m a0 with
            | Ok (x, a1) => k x a1
            | Raise e => Raise e
            end.

Definition raise {A} (e : semantic_error) : analysis A :=
  fun _ => Raise (SemanticError e).

Declare Scope analysis_scope.
Delimit Scope analysis_scope with analysis.
Notation "'let*' x := m 'in' k" := (bind m (fun x => k))
  (at level 10, x name, m at level 100, k at level 200) : analysis_scope.
Notation "m ;; k" := (bind m (fun _ => k))
  (at level 100, right associativity) : analysis_scope.
Local Open Scope analysis_scope.

(** Run an operation of the current scope and store the scope it returns. *)
Definition on_table (f : SymbolTable -> result exception SymbolTable)
    : analysis unit :=
  fun a => match f (symbol_table a) with
           | Ok s => Ok (tt, mk s (current_function a))
           | Raise e => Raise e
           end.

Definition read_table {A} (f : SymbolTable -> result exception A)
    : analysis A :=
  fun a => match f (symbol_table a) with
           | Ok x => Ok (x, a)
           | Raise e => Raise e
           end.

(** [old_symbol_table = self.symbol_table;
     self.symbol_table = SymbolTable(parent=old_symbol_table)] *)
Definition push_scope : analysis unit :=
  fun a => Ok (tt, mk (new_table (Some (symbol_table a))) (current_function a)).

(** [self.symbol_table = old_symbol_table] *)
Definition pop_scope : analysis unit :=
  fun a => match parent (symbol_table a) with
           | Some old => Ok (tt, mk old (current_function a))
           | None => Ok (tt, a)
           end.

(** [old_symbol_table.declare_function(...)], while the scope pushed for
    the function is the current one. *)
Definition declare_function_in_old (name : string) (param_count : nat)
    (param_types : list ty) (return_type : pytype) : analysis unit :=
  on_table (fun s =>
    match parent s with
    | Some old =>
        match declare_function name param_count param_types return_type old with
        | Ok old' => Ok (mkSymbolTable (variables s) (functions s) (Some old'))
        | Raise e => Raise e
        end
    | None => Ok s
    end).

Definition get_current_function : analysis (option string) :=
  fun a => Ok (current_function a, a).

Definition set_current_function (f : option string) : analysis unit :=
  fun a => Ok (tt, mk (symbol_table a) f).

(** The truth value of [self.current_function]: a name that is not empty. *)
Definition truthy (f : option string) : bool :=
  match f with
  | Some name => negb (String.eqb name "")
  | None => false
  end.

Definition is_arithmetic (type : TokenType) : bool :=
  bool_decide (type ∈ [PLUS; MINUS; STAR; SLASH]).

(** [for param in node.params: param_types.append("any");
     self.symbol_table.declare_variable(param, "any")] *)
Fixpoint declare_params (params : list string) (param_types : list ty)
    : analysis (list ty) :=
  match params with
  | [] => ret param_types
  | param :: params' =>
      on_table (declare_variable param (Some TAny));;
      declare_params params' (param_types ++ [TAny])%list
  end.

Fixpoint analyze_node (node : Node) : analysis pytype :=
  match node with
  | NumberNode _ => ret (Some TNumber)
  | StringNode _ => ret (Some TString)
  | VariableNode name => read_table (get_variable name)
  | BinaryOpNode left_ op right_ =>
      let* left_type := analyze_node left_ in
      let* right_type := analyze_node right_ in
      if bool_decide (Token.type op = DOTDOT) then ret (Some TString)
      else if is_arithmetic (Token.type op) then
        if bool_decide (left_type ≠ Some TNumber)
           || bool_decide (right_type ≠ Some TNumber)
        then raise (TypeMismatch left_type right_type
                      (Token.line op) (Token.column op))
        else ret (Some TNumber)
      else ret (Some TBoolean)
  | AssignmentNode var_name value =>
      let* expr_type := analyze_node value in
      (fun a =>
         match get_variable var_name (symbol_table a) with
         | Ok _ => Ok (tt, a)
         | Raise (SemanticError _) =>
             on_table (declare_variable var_name expr_type) a
         | Raise e => Raise e
         end);;
      ret expr_type
  | IfNode condition then_branch else_branch =>
      let* condition_type := analyze_node condition in
      if bool_decide (condition_type ≠ Some TBoolean)
      then raise (IfConditionTypeError condition_type)
      else
        analyze_node then_branch;;
        match else_branch with
        | Some e => analyze_node e;; ret None
        | None => ret None
        end
  | WhileNode condition body =>
      let* condition_type := analyze_node condition in
      if bool_decide (condition_type ≠ Some TBoolean)
      then raise (WhileConditionTypeError condition_type)
      else analyze_node body;; ret None
  | FunctionNode name params body =>
      push_scope;;
      let* old_function := get_current_function in
      set_current_function (Some name);;
      let* param_types := declare_params params [] in
      let* return_type :=
        match body with
        | BlockNode statements =>
            (fix scan (stmts : list Node) (return_type : pytype)
               : analysis pytype :=
               match stmts with
               | [] => ret return_type
               | stmt :: stmts' =>
                   match stmt with
                   | ReturnNode (Some value) =>
                       let* t := analyze_node value in scan stmts' t
                   | _ => scan stmts' return_type
                   end
               end) statements None
        | _ => fun _ => Raise AttributeError
        end in
      declare_function_in_old name (length params) param_types return_type;;
      analyze_node body;;
      pop_scope;;
      set_current_function old_function;;
      ret None
  | FunctionCallNode name arguments =>
      let* func_info := read_table (get_function name) in
      let '(param_count, param_types, return_type) := func_info in
      if bool_decide (length arguments ≠ param_count)
      then raise (ArityMismatch name param_count (length arguments))
      else
        (fix each (args : list Node) : analysis unit :=
           match args with
           | [] => ret tt
           | arg :: args' => analyze_node arg;; each args'
           end) arguments;;
        ret (match return_type with Some t => Some t | None => Some TAny end)
  | ReturnNode value =>
      let* f := get_current_function in
      if negb (truthy f) then raise ReturnOutsideFunction
      else
        match value with
        | Some v => analyze_node v
        | None => ret None
        end
  | BlockNode statements =>
      push_scope;;
      (fix each (stmts : list Node) : analysis unit :=
         match stmts with
         | [] => ret tt
         | stmt :: stmts' => analyze_node stmt;; each stmts'
         end) statements;;
      pop_scope;;
      ret None
  end.

(** [SemanticAnalyzer()]: the global scope with the built-in [print]. *)
Definition init : t :=
  mk (mkSymbolTable ∅ {[ "print" := (1%nat, [TAny], None) ]} None) None.

(** [analyze(nodes)], on a list of nodes. *)
Fixpoint analyze_nodes (nodes : list Node) : analysis bool :=
  match nodes with
  | [] => ret true
  | node :: nodes' => analyze_node node;; analyze_nodes nodes'
  end.

(** [SemanticAnalyzer().analyze(ast)] on a single node, which [analyze]
    wraps in a list. *)
Definition analyze (ast : Node) : result exception bool :=
  match analyze_nodes [ast] init with
  | Ok (b, _) => Ok b
  | Raise e => Raise e
  end.

End Analyzer.

(** ** The pipeline of [main.py]: lexer, parser, analyzer *)

(** [Parser(Lexer(code).tokens).parse()] *)
Definition front (src : string) : option (result Parser.failure Node) :=
  '(toks, _) ← Lexer.tokenize src; Some (Parser.parse toks).

Inductive outcome :=
  | Accepted
  | ParseFailure (e : Parser.failure)
  | SemanticFailure (e : exception).

Definition compile (src : string) : option outcome :=
  '(toks, _) ← Lexer.tokenize src;
  match Parser.parse toks with
  | Ok ast =>
      match Analyzer.analyze ast with
      | Ok _ => Some Accepted
      | Raise e => Some (SemanticFailure e)
      end
  | Raise e => Some (ParseFailure e)
  end.

(** The loops of [analyze_node], named. *)

(** [for stmt in node.statements: self.analyze_node(stmt)], also the loop
    over the arguments of a call. *)
Fixpoint analyze_each (nodes : list Node) : Analyzer.analysis unit :=
  match nodes with
  | [] => Analyzer.ret tt
  | node :: nodes' =>
      Analyzer.bind (Analyzer.analyze_node node) (fun _ => analyze_each nodes')
  end.

(** The scan of the direct statements of a function body for its return
    type. *)
Fixpoint scan_returns (stmts : list Node) (return_type : pytype)
    : Analyzer.analysis pytype :=
  match stmts with
  | [] => Analyzer.ret return_type
  | ReturnNode (Some value) :: stmts' =>
      Analyzer.bind (Analyzer.analyze_node value) (fun t => scan_returns stmts' t)
  | _ :: stmts' => scan_returns stmts' return_type
  end.

(** [node.body.statements] read by the scan: an [AttributeError] when the
    body is no [BlockNode]. *)
Definition scan_body (body : Node) : Analyzer.analysis pytype :=
  match body with
  | BlockNode stmts => scan_returns stmts None
  | _ => fun _ => Raise AttributeError
  end.

(** The values of the [return]s among the direct statements of a body, in
    order: what [isinstance(stmt, ReturnNode) and stmt.value] selects. *)
Definition valued_returns (stmts : list Node) : list Node :=
  omap (fun stmt => match stmt with ReturnNode (Some v) => Some v | _ => None end)
       stmts.

(** The nodes the grammar's [expr] produces. *)
Fixpoint expression (n : Node) : bool :=
  match n with
  | NumberNode _ | StringNode _ | VariableNode _ => true
  | BinaryOpNode l _ r => expression l && expression r
  | FunctionCallNode _ args => forallb expression args
  | _ => false
  end.


(** The line and the column of the character at [index] of a source, both
    counted from 1, a newline ending its line. *)
Fixpoint position_from (src : string) (index : nat) (line column : Z) : Z * Z :=
  match index, src with
  | O, _ => (line, column)
  | S _, EmptyString => (line, column)
  | S index', String c src' =>
      if chr_eqb c newline then position_from src' index' (line + 1) 1
      else position_from src' index' line (column + 1)
  end.

Definition position (src : string) (index : nat) : Z * Z :=
  position_from src index 1 1.

(** The source [QaNbQ x]: a string literal holding a newline (Q the double
    quote, N the newline), a space, and an identifier. *)
Definition two_line_string_then_x : string :=
  String dquote ("a" +:+ String newline ("b" +:+ String dquote " x")).

(** ** Vocabulary of the properties *)

(** What a successful analysis leaves as it found it: the enclosing scopes
    and the function context. *)
Definition frame (a a' : Analyzer.t) : Prop :=
  parent (Analyzer.symbol_table a') = parent (Analyzer.symbol_table a)
  /\ Analyzer.current_function a' = Analyzer.current_function a.

Definition keeps_frame {A} (m : Analyzer.analysis A) : Prop :=
  forall a x a', m a = Ok (x, a') -> frame a a'.

(** The property proved by induction: a node keeps the frame, and so do the
    values of the [return]s that the scan of a function body reads. *)
Definition value_keeps_frame (n : Node) : Prop :=
  match n with
  | ReturnNode (Some v) => keeps_frame (Analyzer.analyze_node v)
  | _ => True
  end.

Definition node_keeps_frame (n : Node) : Prop :=
  keeps_frame (Analyzer.analyze_node n)
  /\ value_keeps_frame n
  /\ match n with
     | BlockNode stmts => Forall value_keeps_frame stmts
     | _ => True
     end.

(** The scope pushed on entering a block or a function. *)
Definition child_scope (a : Analyzer.t) : Analyzer.t :=
  Analyzer.mk (new_table (Some (Analyzer.symbol_table a))) (Analyzer.current_function a).

Definition on_return_value (P : Node -> Prop) (n : Node) : Prop :=
  match n with
  | ReturnNode (Some v) => P v
  | _ => True
  end.

Definition on_scanned (P : Node -> Prop) (body : Node) : Prop :=
  match body with
  | BlockNode stmts => Forall (on_return_value P) stmts
  | _ => True
  end.

(** An arity error always states two different counts. *)
Definition consistent (e : exception) : Prop :=
  forall f k, e ≠ SemanticError (ArityMismatch f k k).

Definition raises_consistent {A} (m : Analyzer.analysis A) : Prop :=
  forall a e, m a = Raise e -> consistent e.

(** The analyzer on entering the declaration of [f]: a fresh scope under the
    current one, and [f] as the function context. *)
Definition function_scope (f : string) (a : Analyzer.t) : Analyzer.t :=
  Analyzer.mk (new_table (Some (Analyzer.symbol_table a))) (Some f).

(** The claim of the specification, as it is worded: the registered return
    type is the type of the first direct [return] that carries a value. *)
Definition registers_first_return
    (f : string) (params : list string) (stmts : list Node) (a : Analyzer.t)
    : Prop :=
  forall t a' v,
    Analyzer.analyze_node (FunctionNode f params (BlockNode stmts)) a = Ok (t, a') ->
    head (valued_returns stmts) = Some v ->
    exists scope scope' rt info,
      functions (Analyzer.symbol_table a') !! f = Some (info, rt)
      /\ Analyzer.analyze_node v scope = Ok (rt, scope').

(** What follows the [=] of an assignment to [name]: the value expression,
    an optional [;], and the node. *)
Definition assignment_tail (fuel : nat) (name : string) : Parser.parser Node :=
  Parser.bind (Parser.parse_expression fuel) (fun value =>
  Parser.bind (Parser.match_ [SEMICOLON]) (fun _ =>
  Parser.ret (AssignmentNode name value))).

(** The value [number] gives to the text of a literal, [None] when the
    conversion raises. *)
Definition literal_value (value : string) : option pyvalue :=
  if contains_char "." value then python_float value
  else VInt <$> python_int value.

(** The superscript two, U+00B2: [str.isdigit] holds of it, [int] refuses
    it. *)
Definition superscript_two : ascii := "178".

(** A literal of [n] digits [1]. *)
Definition ones (n : nat) : string := string_of_list_ascii (List.repeat "1"%char n).

(** The texts [number] hands to [int] and [float]: a first character that
    [str.isdigit] accepts, then such characters and at most one [.]. *)
Definition literal_text (value : string) : Prop :=
  (exists c, String.get 0 value = Some c /\ isdigit c = true)
  /\ all_chars (fun c => isdigit c || chr_eqb c ".") value = true
  /\ (count_char "." value <= 1)%nat.

(** The lexer inside a number literal that holds at most [dots] dots. *)
Record in_literal (dots : nat) (l : Lexer.t) : Prop := {
  lit_order : (Lexer.start l < Lexer.current l)%nat;
  lit_bound : (Lexer.current l <= String.length (Lexer.source l))%nat;
  lit_first : exists c,
    String.get 0 (Lexer.slice (Lexer.source l) (Lexer.start l) (Lexer.current l))
    = Some c /\ isdigit c = true;
  lit_chars :
    all_chars (fun c => isdigit c || chr_eqb c ".")
      (Lexer.slice (Lexer.source l) (Lexer.start l) (Lexer.current l)) = true;
  lit_dots :
    (count_char "."
       (Lexer.slice (Lexer.source l) (Lexer.start l) (Lexer.current l))
     <= dots)%nat
}.

(** Sources whose digits are all decimal: no superscript digit. *)
Definition decimal_digits_only (src : string) : Prop :=
  all_chars (fun c => implb (isdigit c) (isdecimal c)) src = true.

(** What one call of a lexer routine may change: it moves [current] forward
    within the source, and appends to the tokens and to the output. *)
Record advances (l l' : Lexer.t) : Prop := {
  adv_source : Lexer.source l' = Lexer.source l;
  adv_current : (Lexer.current l <= Lexer.current l')%nat;
  adv_tokens : exists new,
    Lexer.tokens l' = (Lexer.tokens l ++ new)%list
    /\ Forall (fun tok => Token.type tok ≠ EOF) new;
  adv_printed : exists new, Lexer.printed l' = (Lexer.printed l ++ new)%list
}.

(** What the inner loops change: the position only. *)
Record moves (l l' : Lexer.t) : Prop := {
  mv_source : Lexer.source l' = Lexer.source l;
  mv_start : Lexer.start l' = Lexer.start l;
  mv_current : (Lexer.current l <= Lexer.current l')%nat;
  mv_tokens : Lexer.tokens l' = Lexer.tokens l;
  mv_printed : Lexer.printed l' = Lexer.printed l
}.

(** Every variable that resolves in [a] resolves to the same type in [a']. *)
Definition resolves (a a' : Analyzer.t) : Prop :=
  forall x t,
    get_variable x (Analyzer.symbol_table a) = Ok t ->
    get_variable x (Analyzer.symbol_table a') = Ok t.

Definition keeps_resolution {A} (m : Analyzer.analysis A) : Prop :=
  forall a x a', m a = Ok (x, a') -> resolves a a'.

(** A [return] that is analyzed in the function context of the node itself:
    at the node, or below it without entering a function declaration. *)
Fixpoint has_bare_return (n : Node) : bool :=
  match n with
  | NumberNode _ | StringNode _ | VariableNode _ => false
  | BinaryOpNode l _ r => has_bare_return l || has_bare_return r
  | AssignmentNode _ v => has_bare_return v
  | IfNode c t e =>
      has_bare_return c || has_bare_return t
      || match e with Some e' => has_bare_return e' | None => false end
  | WhileNode c b => has_bare_return c || has_bare_return b
  | FunctionNode _ _ _ => false
  | FunctionCallNode _ args => existsb has_bare_return args
  | ReturnNode _ => true
  | BlockNode stmts => existsb has_bare_return stmts
  end.

(** The tokens [op1 n1 op2 n2 ...] of a chain of operators and operands, and
    the left-leaning tree they extend [e] to when the operands are number
    tokens. *)
Definition chain_tokens (pairs : list (Token.t * Token.t)) : list Token.t :=
  flat_map (fun p => [fst p; snd p]) pairs.

Definition chain_tree (e : Node) (pairs : list (Token.t * Token.t)) : Node :=
  fold_left (fun e p => BinaryOpNode e (fst p) (NumberNode (Token.value (snd p))))
            pairs e.

(** The token types of the binary operators. *)
Definition binary_operator (type : TokenType) : bool :=
  bool_decide (type ∈ [STAR; SLASH; PLUS; MINUS; EQUAL_EQUAL; GREATER;
                       GREATER_EQUAL; LESS; LESS_EQUAL; DOTDOT]).

(** A parser that returns expression nodes only. *)
Definition yields_expressions (m : Parser.parser Node) : Prop :=
  forall p e p', m p = Ok (e, p') -> expression e = true.

(** A token placed at its lexeme: some index [start] of the source has the
    line and column the token carries, and the payload of the token is read
    from the source there (for a string literal after its opening quote; for
    an integer, decimal digits that stand there and have its value; for a
    float, its text of decimal digits with a [.]). *)
Definition tok_placed (src : string) (tok : Token.t) : Prop :=
  exists start : nat,
    position src start = (Token.line tok, Token.column tok)
    /\ match Token.value tok with
       | VStr text =>
           String.substring
             (if bool_decide (Token.type tok = STRING) then S start else start)
             (String.length text) src = text
       | VFloat text =>
           contains_char "." text = true
           /\ all_chars (fun c => isdecimal c || chr_eqb c ".") text = true
           /\ String.substring start (String.length text) src = text
       | VInt n =>
           exists digits,
             digits <> EmptyString
             /\ all_chars isdecimal digits = true
             /\ String.substring start (String.length digits) src = digits
             /\ n = int_of_digits 0 digits
       | VNone => False
       end.

(** The lexer between two tokens: its line and column are those of the
    character at [current], and the tokens made so far are placed. *)
Record scanned (l : Lexer.t) : Prop := {
  sc_current :
    position (Lexer.source l) (Lexer.current l) = (Lexer.line l, Lexer.column l);
  sc_bound : (Lexer.current l <= String.length (Lexer.source l))%nat;
  sc_tokens : Forall (tok_placed (Lexer.source l)) (Lexer.tokens l)
}.

(** The lexer inside a token that began at [start] on the current line. *)
Record placed (l : Lexer.t) : Prop := {
  pl_scanned : scanned l;
  pl_order : (Lexer.start l <= Lexer.current l)%nat;
  pl_start :
    position (Lexer.source l) (Lexer.start l)
    = (Lexer.line l,
       Lexer.column l - (Z.of_nat (Lexer.current l) - Z.of_nat (Lexer.start l)))
}.

(** Sources on one line, and sources without string literals. *)
Definition no_newline (src : string) : Prop := contains_char newline src = false.

Definition no_quote (src : string) : Prop :=
  contains_char dquote src = false /\ contains_char squote src = false.

(** The characters that continue an identifier. *)
Definition word_char (c : ascii) : bool := isalnum c || chr_eqb c "_".


(** * Properties *)

Import Analyzer.
Local Open Scope analysis_scope.


Lemma analyze_block_unfold stmts :
  analyze_node (BlockNode stmts)
  = (push_scope;; analyze_each stmts;; pop_scope;; ret None).
Proof. reflexivity. Qed.

Lemma analyze_call_unfold name args :
  analyze_node (FunctionCallNode name args)
  = (let* func_info := read_table (get_function name) in
     let '(param_count, param_types, return_type) := func_info in
     if bool_decide (length args ≠ param_count)
     then raise (ArityMismatch name param_count (length args))
     else analyze_each args;;
          ret (match return_type with Some t => Some t | None => Some TAny end)).
Proof. reflexivity. Qed.

Lemma analyze_function_unfold name params stmts :
  analyze_node (FunctionNode name params (BlockNode stmts))
  = (push_scope;;
     let* old_function := get_current_function in
     set_current_function (Some name);;
     let* param_types := declare_params params [] in
     let* return_type := scan_returns stmts None in
     declare_function_in_old name (length params) param_types return_type;;
     analyze_node (BlockNode stmts);;
     pop_scope;;
     set_current_function old_function;;
     ret None).
Proof. reflexivity. Qed.

Lemma analyze_function_body name params body :
  analyze_node (FunctionNode name params body)
  = (push_scope;;
     let* old_function := get_current_function in
     set_current_function (Some name);;
     let* param_types := declare_params params [] in
     let* return_type := scan_body body in
     declare_function_in_old name (length params) param_types return_type;;
     analyze_node body;;
     pop_scope;;
     set_current_function old_function;;
     ret None).
Proof. destruct body; reflexivity. Qed.

(** ** The analyzer's monad *)

Lemma bind_Ok {A B} (m : analysis A) (k : A -> analysis B) a r :
  bind m k a = Ok r <-> exists x a1, m a = Ok (x, a1) /\ k x a1 = Ok r.
Proof.
  unfold bind. destruct (m a) as [[x a1]|e]; split.
  - eauto.
  - intros (? & ? & [= <- <-] & ?); done.
  - done.
  - intros (? & ? & [=] & ?).
  Qed.

Lemma bind_Raise {A B} (m : analysis A) (k : A -> analysis B) a e :
  bind m k a = Raise e
  <-> m a = Raise e \/ exists x a1, m a = Ok (x, a1) /\ k x a1 = Raise e.
Proof.
  unfold bind. destruct (m a) as [[x a1]|e']; split.
  - eauto.
  - intros [[=]|(? & ? & [= <- <-] & ?)]; done.
  - intros [= <-]; eauto.
  - intros [[= <-]|(? & ? & [=] & ?)]; done.
Qed.

Lemma ret_Ok {A} (x : A) a r : ret x a = Ok r <-> r = (x, a).
Proof. unfold ret. split; [intros [= <-]|intros ->]; done. Qed.

Lemma on_table_Ok f a x a' :
  on_table f a = Ok (x, a')
  <-> exists s, f (symbol_table a) = Ok s /\ a' = Analyzer.mk s (current_function a).
Proof.
  unfold on_table. destruct (f (symbol_table a)); split.
  - intros [= <- <-]; eauto.
  - intros (? & [= <-] & ->). by destruct x.
  - done.
  - intros (? & [=] & _).
Qed.

Lemma read_table_Ok {A} (f : SymbolTable -> result exception A) a x a' :
  read_table f a = Ok (x, a') <-> f (symbol_table a) = Ok x /\ a' = a.
Proof.
  unfold read_table. destruct (f (symbol_table a)); split.
  - intros [= <- <-]; eauto.
  - intros ([= <-] & ->). done.
  - done.
  - intros ([=] & _).
Qed.

(** Decompose a successful run into the runs of its parts. *)
Ltac inv_run :=
  repeat match goal with
  | H : bind _ _ _ = Ok _ |- _ =>
      apply bind_Ok in H; destruct H as (? & ? & ? & H)
  | H : ret _ _ = Ok _ |- _ => apply ret_Ok in H; simplify_eq
  | H : raise _ _ = Ok _ |- _ => discriminate H
  | H : on_table _ _ = Ok _ |- _ => apply on_table_Ok in H as (? & ? & ->)
  | H : read_table _ _ = Ok _ |- _ => apply read_table_Ok in H as [? ->]
  | H : push_scope _ = Ok _ |- _ => unfold push_scope in H; simplify_eq
  | H : get_current_function _ = Ok _ |- _ =>
      unfold get_current_function in H; simplify_eq
  | H : set_current_function _ _ = Ok _ |- _ =>
      unfold set_current_function in H; simplify_eq
  | H : (if ?b then _ else _) _ = Ok _ |- _ => destruct b eqn:?
  | H : Ok _ = Ok _ |- _ => simplify_eq
  | H : Raise _ = Ok _ |- _ => discriminate H
  end.

(** ** Scopes are a stack *)

Lemma frame_refl a : frame a a.
Proof. done. Qed.

Lemma frame_trans a b c : frame a b -> frame b c -> frame a c.
Proof. unfold frame. intros [-> ->] [-> ->]; done. Qed.

Lemma declare_variable_parent x t s s' :
  declare_variable x t s = Ok s' -> parent s' = parent s.
Proof. unfold declare_variable. case_match; intros [= <-]; done. Qed.

Lemma declare_function_parent f n pts rt s s' :
  declare_function f n pts rt s = Ok s' -> parent s' = parent s.
Proof. unfold declare_function. case_match; intros [= <-]; done. Qed.

Lemma keeps_frame_each nodes :
  Forall (fun n => keeps_frame (analyze_node n)) nodes ->
  keeps_frame (analyze_each nodes).
Proof.
  induction 1 as [|n nodes Hn _ IH]; intros a x a' H; simpl in H.
  - inv_run. apply frame_refl.
  - inv_run. eapply frame_trans; [by eapply Hn|by eapply IH].
Qed.

Lemma keeps_frame_declare_params params pts :
  keeps_frame (declare_params params pts).
Proof.
  revert pts. induction params as [|p params IH]; intros pts a x a' H; simpl in H.
  - inv_run. apply frame_refl.
  - inv_run. eapply frame_trans; [|by eapply IH].
    split; [|done]. simpl. by eapply declare_variable_parent.
Qed.

Lemma keeps_frame_scan stmts rt :
  Forall value_keeps_frame stmts -> keeps_frame (scan_returns stmts rt).
Proof.
  intros Hall. revert rt.
  induction Hall as [|n stmts Hn _ IH]; intros rt a x a' H; simpl in H.
  - inv_run. apply frame_refl.
  - destruct n as [| | | | | | | | |[v|]|]; try by eapply IH.
    inv_run. eapply frame_trans; [by eapply Hn|by eapply IH].
Qed.

Lemma pop_scope_Ok a x a' old :
  pop_scope a = Ok (x, a') ->
  parent (symbol_table a) = Some old ->
  a' = Analyzer.mk old (current_function a).
Proof. unfold pop_scope. intros H Hp. rewrite Hp in H. by simplify_eq. Qed.

Lemma declare_function_in_old_Ok f n pts rt a x a' old :
  declare_function_in_old f n pts rt a = Ok (x, a') ->
  parent (symbol_table a) = Some old ->
  exists old',
    declare_function f n pts rt old = Ok old'
    /\ a' = Analyzer.mk
              (mkSymbolTable (variables (symbol_table a))
                 (functions (symbol_table a)) (Some old'))
              (current_function a).
Proof.
  unfold declare_function_in_old. intros H Hp. inv_run.
  rewrite Hp in *. destruct (declare_function _ _ _ _ _); simplify_eq. eauto.
Qed.

Lemma analyze_node_keeps_frame n : node_keeps_frame n.
Proof.
  induction n as [| | |l op r [IH1 _] [IH2 _]|x v [IH _]
                  |c t e [IH1 _] [IH2 _] IH3|c b [IH1 _] [IH2 _]
                  |f ps b [IH [_ IHb]]|f args IH|v IH|stmts IH]
    using Node_induction; (split; [|split; try done]).
  - intros ? ? ? Hrun; simpl in Hrun; inv_run. apply frame_refl.
  - intros ? ? ? Hrun; simpl in Hrun; inv_run. apply frame_refl.
  - intros ? ? ? Hrun; simpl in Hrun; inv_run. apply frame_refl.
  - intros ? ? ? Hrun; simpl in Hrun; inv_run.
    all: eapply frame_trans; [by eapply IH1|by eapply IH2].
  - intros ? ? ? Hrun; simpl in Hrun; inv_run.
    eapply frame_trans; [by eapply IH|].
    match goal with H : context [get_variable] |- _ =>
      destruct (get_variable _ _) as [|[]] in H end; inv_run;
      try apply frame_refl.
    split; [|done]. simpl. by eapply declare_variable_parent.
  - intros ? ? ? Hrun; simpl in Hrun; inv_run.
    eapply frame_trans; [by eapply IH1|].
    eapply frame_trans; [by eapply IH2|].
    destruct e as [e|]; inv_run; [|apply frame_refl].
    destruct IH3 as [IH3 _]. by eapply IH3.
  - intros ? ? ? Hrun; simpl in Hrun; inv_run.
    eapply frame_trans; [by eapply IH1|by eapply IH2].
  - intros a ? a' Hrun.
    destruct b; try (simpl in Hrun; inv_run; discriminate).
    rewrite analyze_function_unfold in Hrun.
    apply bind_Ok in Hrun as (? & a1 & Hpush & Hrun).
    apply bind_Ok in Hrun as (oldf & a2 & Hget & Hrun).
    apply bind_Ok in Hrun as (? & a3 & Hset & Hrun).
    apply bind_Ok in Hrun as (pts & a4 & Hparams & Hrun).
    apply bind_Ok in Hrun as (rt & a5 & Hscan & Hrun).
    apply bind_Ok in Hrun as (? & a6 & Hdecl & Hrun).
    apply bind_Ok in Hrun as (? & a7 & Hbody & Hrun).
    apply bind_Ok in Hrun as (? & a8 & Hpop & Hrun).
    apply bind_Ok in Hrun as (? & a9 & Hrestore & Hrun).
    inv_run.
    apply keeps_frame_declare_params in Hparams as [Hp4 Hc4].
    apply keeps_frame_scan in Hscan as [Hp5 Hc5]; [|done].
    apply IH in Hbody as [Hp7 Hc7].
    simpl in Hp4. rewrite Hp4 in Hp5.
    eapply declare_function_in_old_Ok in Hdecl as (old' & Hold & ->); [|done].
    simpl in Hp7.
    eapply pop_scope_Ok in Hpop; [|done]. subst a8.
    split; simpl; [|done]. by eapply declare_function_parent.
  - intros a ? a' Hrun. rewrite analyze_call_unfold in Hrun. inv_run.
    destruct x0 as [[pc pts] rt]. inv_run.
    eapply keeps_frame_each; [|done].
    eapply Forall_impl; [done|]. by intros ? [? _].
  - intros a ? a' Hrun; simpl in Hrun; inv_run.
    destruct v as [v|]; inv_run; [|apply frame_refl].
    destruct IH as [IH _]. by eapply IH.
  - destruct v as [v|]; [|done]. by destruct IH as [IH _].
  - intros a ? a' Hrun. rewrite analyze_block_unfold in Hrun. inv_run.
    match goal with H : analyze_each _ _ = Ok _ |- _ =>
      apply keeps_frame_each in H;
        [destruct H as [Hp Hc]|eapply Forall_impl; [done|]; by intros ? [? _]]
    end.
    simpl in Hp, Hc.
    match goal with H : pop_scope _ = Ok _ |- _ =>
      eapply pop_scope_Ok in H; [|exact Hp]; subst end.
    rewrite Hc. by destruct a.
  - eapply Forall_impl; [done|]. by intros ? (_ & ? & _).
Qed.

Lemma bind_run {A B} (m : analysis A) (k : A -> analysis B) a x a1 :
  m a = Ok (x, a1) -> bind m k a = k x a1.
Proof. unfold bind. by intros ->. Qed.

Lemma bind_fail {A B} (m : analysis A) (k : A -> analysis B) a e :
  m a = Raise e -> bind m k a = Raise e.
Proof. unfold bind. by intros ->. Qed.

Lemma analyze_each_keeps_frame nodes : keeps_frame (analyze_each nodes).
Proof.
  apply keeps_frame_each, Forall_forall. intros n _.
  apply analyze_node_keeps_frame.
Qed.

(** ** Blocks *)

Lemma analyze_block_result stmts a :
  analyze_node (BlockNode stmts) a
  = match analyze_each stmts (child_scope a) with
    | Ok _ => Ok (None, a)
    | Raise e => Raise e
    end.
Proof.
  rewrite analyze_block_unfold.
  rewrite (bind_run push_scope _ a tt (child_scope a)) by reflexivity.
  destruct (analyze_each stmts (child_scope a)) as [[[] inner]|e] eqn:Hin.
  - rewrite (bind_run _ _ _ _ _ Hin).
    apply analyze_each_keeps_frame in Hin as [Hp Hc]. simpl in Hp, Hc.
    unfold bind, pop_scope, ret. rewrite Hp, Hc. by destruct a.
  - by rewrite (bind_fail _ _ _ _ Hin).
Qed.

(** C7: a block is analyzed by analyzing its statements in order in a fresh
    child scope of the current one; when they all pass, the analyzer is back
    in exactly the state it had before the block, so nothing declared inside
    is visible after it, and when one fails the block fails with its error.
    A variable assigned only in the then-branch of an [if] is undefined after
    the [if], and defined inside it. *)
Theorem block_restores_scope (stmts : list Node) (a : Analyzer.t) :
  analyze_node (BlockNode stmts) a
  = match analyze_each stmts (child_scope a) with
    | Ok _ => Ok (None, a)
    | Raise e => Raise e
    end
  /\ compile "if 1 == 1 then y = 1 end print(y)"
     = Some (SemanticFailure (SemanticError (UndefinedVariable "y")))
  /\ compile "if 1 == 1 then y = 1 print(y) end" = Some Accepted.
Proof.
  split; [apply analyze_block_result|split; vm_compute; reflexivity].
Qed.

(** ** Assignments *)

Lemma get_variable_cases x s :
  (exists t, get_variable x s = Ok t /\ True)
  \/ (get_variable x s = Raise (SemanticError (UndefinedVariable x))
      /\ variables s !! x = None).
Proof.
  revert s. fix IH 1. intros [vars funs [p|]]; simpl.
  - destruct (vars !! x) eqn:Hx; [by eauto|].
    destruct (IH p) as [(t & -> & _)|[-> _]]; eauto.
  - destruct (vars !! x) eqn:Hx; eauto.
Qed.

(** C4: once the right-hand side of an assignment has been analyzed, a
    target that is declared nowhere in the scope chain is declared in the
    innermost scope with the type of the right-hand side; a target that is
    declared at some level leaves every scope as it is, whatever that type;
    either way the assignment yields the type of the right-hand side. *)
Theorem assignment_declares_on_first_use
    (x : string) (value : Node) (a a1 : Analyzer.t) (t : pytype) :
  analyze_node value a = Ok (t, a1) ->
  match get_variable x (symbol_table a1) with
  | Ok t0 =>
      analyze_node (AssignmentNode x value) a = Ok (t, a1)
      /\ get_variable x (symbol_table a1) = Ok t0
  | Raise _ =>
      exists a2,
        analyze_node (AssignmentNode x value) a = Ok (t, a2)
        /\ variables (symbol_table a2) = <[x := t]> (variables (symbol_table a1))
        /\ functions (symbol_table a2) = functions (symbol_table a1)
        /\ parent (symbol_table a2) = parent (symbol_table a1)
        /\ current_function a2 = current_function a1
        /\ get_variable x (symbol_table a2) = Ok t
  end.
Proof.
  intros Hvalue. simpl. rewrite (bind_run _ _ _ _ _ Hvalue).
  destruct (get_variable_cases x (symbol_table a1)) as [(t0 & Hx & _)|[Hx Hnone]].
  - rewrite Hx. split; [|done]. unfold bind, ret. by rewrite Hx.
  - rewrite Hx. eexists. unfold bind, ret, on_table, declare_variable.
    rewrite Hx, Hnone. split; [done|]. simpl. repeat split.
    destruct (symbol_table a1) as [vars funs par]; simpl.
    by rewrite lookup_insert_eq.
Qed.

Lemma assignment_declares_on_first_use_witness :
  exists a2,
    analyze_node (AssignmentNode "x" (NumberNode (VInt 1))) Analyzer.init
    = Ok (Some TNumber, a2)
    /\ get_variable "x" (symbol_table a2) = Ok (Some TNumber).
Proof.
  destruct (assignment_declares_on_first_use "x" (NumberNode (VInt 1))
              Analyzer.init Analyzer.init (Some TNumber) eq_refl)
    as (a2 & H & _ & _ & _ & _ & Hx).
  exists a2. split; assumption.
Defined.

(** ** Binary operators *)

(** C5: with both operands analyzed, [..] yields string whatever their
    types; an arithmetic operator raises the type mismatch that names the two
    operand types and the position of the operator exactly when one of them
    is not number, and yields number otherwise; every other operator yields
    boolean whatever the operand types. *)
Theorem binary_op_typing
    (l r : Node) (op : Token.t) (a a1 a2 : Analyzer.t) (lt rt : pytype) :
  analyze_node l a = Ok (lt, a1) ->
  analyze_node r a1 = Ok (rt, a2) ->
  (Token.type op = DOTDOT ->
   analyze_node (BinaryOpNode l op r) a = Ok (Some TString, a2))
  /\ (Token.type op ∈ [PLUS; MINUS; STAR; SLASH] ->
      (analyze_node (BinaryOpNode l op r) a
       = Raise (SemanticError
                  (TypeMismatch lt rt (Token.line op) (Token.column op)))
       <-> lt ≠ Some TNumber \/ rt ≠ Some TNumber)
      /\ (analyze_node (BinaryOpNode l op r) a = Ok (Some TNumber, a2)
          <-> lt = Some TNumber /\ rt = Some TNumber))
  /\ (Token.type op ∉ [DOTDOT; PLUS; MINUS; STAR; SLASH] ->
      analyze_node (BinaryOpNode l op r) a = Ok (Some TBoolean, a2)).
Proof.
  intros Hl Hr. simpl.
  rewrite (bind_run _ _ _ _ _ Hl), (bind_run _ _ _ _ _ Hr).
  unfold is_arithmetic, raise, ret.
  split; [|split].
  - intros ->. done.
  - intros Hop. rewrite bool_decide_eq_false_2, (bool_decide_eq_true_2 _ Hop).
    2: { intros Heq. rewrite Heq in Hop. apply list_elem_of_In in Hop.
         simpl in Hop. intuition discriminate. }
    destruct (decide (lt = Some TNumber)) as [->|Hlt];
      destruct (decide (rt = Some TNumber)) as [->|Hrt].
    + rewrite !bool_decide_eq_false_2 by (intros H; by apply H). simpl.
      split; split; try done. intros [H|H]; by destruct H.
    + rewrite (bool_decide_eq_true_2 (rt ≠ _)) by done.
      rewrite orb_true_r. split; split; try done; [by right|by intros [_ ?]].
    + rewrite (bool_decide_eq_true_2 (lt ≠ _)) by done. simpl.
      split; split; try done; [by left|by intros [? _]].
    + rewrite (bool_decide_eq_true_2 (lt ≠ _)) by done. simpl.
      split; split; try done; [by left|by intros [? _]].
  - intros Hop.
    assert (Token.type op ≠ DOTDOT) by (intros H; apply Hop; rewrite H; left).
    assert (Token.type op ∉ [PLUS; MINUS; STAR; SLASH])
      by (intros H'; apply Hop; by right).
    by rewrite !bool_decide_eq_false_2.
Qed.

Lemma binary_op_typing_witness :
  analyze_node
    (BinaryOpNode (NumberNode (VInt 1)) (Token.mk PLUS (VStr "+") 1 11)
       (StringNode (VStr "a"))) Analyzer.init
  = Raise (SemanticError (TypeMismatch (Some TNumber) (Some TString) 1 11))
  /\ analyze_node
       (BinaryOpNode (NumberNode (VInt 1)) (Token.mk DOTDOT (VStr "..") 1 3)
          (StringNode (VStr "a"))) Analyzer.init
     = Ok (Some TString, Analyzer.init)
  /\ analyze_node
       (BinaryOpNode (NumberNode (VInt 1)) (Token.mk LESS (VStr "<") 1 3)
          (StringNode (VStr "a"))) Analyzer.init
     = Ok (Some TBoolean, Analyzer.init).
Proof.
  split; [|split].
  - apply (binary_op_typing (NumberNode (VInt 1)) (StringNode (VStr "a"))
             (Token.mk PLUS (VStr "+") 1 11) Analyzer.init Analyzer.init
             Analyzer.init (Some TNumber) (Some TString) eq_refl eq_refl).
    + simpl. apply list_elem_of_here.
    + right. discriminate.
  - apply (binary_op_typing (NumberNode (VInt 1)) (StringNode (VStr "a"))
             (Token.mk DOTDOT (VStr "..") 1 3) Analyzer.init Analyzer.init
             Analyzer.init (Some TNumber) (Some TString) eq_refl eq_refl).
    reflexivity.
  - apply (binary_op_typing (NumberNode (VInt 1)) (StringNode (VStr "a"))
             (Token.mk LESS (VStr "<") 1 3) Analyzer.init Analyzer.init
             Analyzer.init (Some TNumber) (Some TString) eq_refl eq_refl).
    simpl. intros H. apply list_elem_of_In in H. simpl in H.
    intuition discriminate.
Defined.

(** ** Induction that also reaches the returns read by the scan *)

Section ScanInduction.
Variable P : Node -> Prop.
Hypothesis HNumber : forall v, P (NumberNode v).
Hypothesis HString : forall v, P (StringNode v).
Hypothesis HVariable : forall x, P (VariableNode x).
Hypothesis HBinaryOp : forall l op r, P l -> P r -> P (BinaryOpNode l op r).
Hypothesis HAssignment : forall x v, P v -> P (AssignmentNode x v).
Hypothesis HIf : forall c t e,
  P c -> P t -> from_option P True e -> P (IfNode c t e).
Hypothesis HWhile : forall c b, P c -> P b -> P (WhileNode c b).
Hypothesis HFunction : forall f ps b,
  P b -> on_scanned P b -> P (FunctionNode f ps b).
Hypothesis HCall : forall f args, Forall P args -> P (FunctionCallNode f args).
Hypothesis HReturn : forall v, from_option P True v -> P (ReturnNode v).
Hypothesis HBlock : forall stmts, Forall P stmts -> P (BlockNode stmts).

Lemma Node_scan_induction (n : Node) : P n.
Proof.
  cut (P n /\ on_return_value P n /\ on_scanned P n); [tauto|].
  induction n as [| | |l op r [IH1 _] [IH2 _]|x v [IH _]
                  |c t e [IH1 _] [IH2 _] IH3|c b [IH1 _] [IH2 _]
                  |f ps b (IH & _ & IHb)|f args IH|v IH|stmts IH]
    using Node_induction; repeat split; simpl; auto.
  - apply HIf; auto. destruct e; simpl in *; tauto.
  - apply HCall. eapply Forall_impl; [done|]. simpl; tauto.
  - apply HReturn. destruct v; simpl in *; tauto.
  - destruct v; simpl in *; tauto.
  - apply HBlock. eapply Forall_impl; [done|]. simpl; tauto.
  - eapply Forall_impl; [done|]. simpl; tauto.
Qed.
End ScanInduction.

(** ** Calls *)

Lemma raises_consistent_bind {A B} (m : analysis A) (k : A -> analysis B) :
  raises_consistent m -> (forall x, raises_consistent (k x)) ->
  raises_consistent (bind m k).
Proof.
  intros Hm Hk a e [H|(x & a1 & _ & H)]%bind_Raise; [by eapply Hm|by eapply Hk].
Qed.

Lemma raises_consistent_ret {A} (x : A) : raises_consistent (ret x).
Proof. intros a e [=]. Qed.

Lemma raises_consistent_total {A} (m : analysis A) :
  (forall a, exists r, m a = Ok r) -> raises_consistent m.
Proof. intros H a e He. destruct (H a) as [r Hr]. congruence. Qed.

Lemma raises_consistent_declare x t :
  raises_consistent (on_table (declare_variable x t)).
Proof.
  intros a e. unfold on_table, declare_variable.
  destruct (variables _ !! x); intros [= <-]. intros f k [=].
Qed.

Lemma raises_consistent_get_variable x :
  raises_consistent (read_table (get_variable x)).
Proof.
  intros a e. unfold read_table.
  destruct (get_variable_cases x (symbol_table a)) as [(t & -> & _)|[-> _]];
    intros [= <-]. intros f k [=].
Qed.

Lemma get_function_cases f s :
  (exists info, get_function f s = Ok info)
  \/ get_function f s = Raise (SemanticError (UndefinedFunction f)).
Proof.
  revert s. fix IH 1. intros [vars funs [p|]]; simpl.
  - destruct (funs !! f) eqn:Hf; [by eauto|]. apply IH.
  - destruct (funs !! f) eqn:Hf; eauto.
Qed.

Lemma raises_consistent_get_function f :
  raises_consistent (read_table (get_function f)).
Proof.
  intros a e. unfold read_table.
  destruct (get_function_cases f (symbol_table a)) as [[t Ht]|Ht];
    rewrite Ht; intros [= <-]. intros g k [=].
Qed.

Lemma raises_consistent_each nodes :
  Forall (fun n => raises_consistent (analyze_node n)) nodes ->
  raises_consistent (analyze_each nodes).
Proof.
  induction 1; simpl.
  - apply raises_consistent_ret.
  - by apply raises_consistent_bind.
Qed.

Lemma raises_consistent_scan stmts rt :
  Forall (on_return_value (fun n => raises_consistent (analyze_node n))) stmts ->
  raises_consistent (scan_returns stmts rt).
Proof.
  intros Hall. revert rt. induction Hall as [|n stmts Hn _ IH]; intros rt; simpl.
  - apply raises_consistent_ret.
  - destruct n as [| | | | | | | | |[v|]|]; try apply IH.
    apply raises_consistent_bind; [done|]. intros t. apply IH.
Qed.

Lemma raises_consistent_declare_params params pts :
  raises_consistent (declare_params params pts).
Proof.
  revert pts. induction params as [|p params IH]; intros pts; simpl.
  - apply raises_consistent_ret.
  - apply raises_consistent_bind; [apply raises_consistent_declare|].
    intros _. apply IH.
Qed.

Lemma raises_consistent_declare_function f n pts rt :
  raises_consistent (declare_function_in_old f n pts rt).
Proof.
  intros a e. unfold declare_function_in_old, on_table, declare_function.
  destruct (parent _) as [old|]; [|by intros [=]].
  destruct (functions old !! f); intros [= <-]. intros g k [=].
Qed.

Lemma analyze_node_raises_consistent n : raises_consistent (analyze_node n).
Proof.
  induction n as [| | |l op r IH1 IH2|x v IH|c t e IH1 IH2 IH3|c b IH1 IH2
                  |f ps b IH IHb|f args IH|v IH|stmts IH]
    using Node_scan_induction.
  - apply raises_consistent_ret.
  - apply raises_consistent_ret.
  - apply raises_consistent_get_variable.
  - simpl. apply raises_consistent_bind; [done|]. intros lt.
    apply raises_consistent_bind; [done|]. intros rt.
    repeat case_match; try apply raises_consistent_ret.
    intros ? ? [= <-] ? ? [=].
  - simpl. apply raises_consistent_bind; [done|]. intros t.
    apply raises_consistent_bind; [|intros _; apply raises_consistent_ret].
    intros a0 e0. destruct (get_variable_cases x (symbol_table a0))
      as [(t0 & -> & _)|[-> _]]; [done|].
    apply raises_consistent_declare.
  - simpl. apply raises_consistent_bind; [done|]. intros ct.
    case_match; [intros ? ? [= <-] ? ? [=]|].
    apply raises_consistent_bind; [done|]. intros _.
    destruct e; simpl in *; [|apply raises_consistent_ret].
    apply raises_consistent_bind; [done|]. intros _. apply raises_consistent_ret.
  - simpl. apply raises_consistent_bind; [done|]. intros ct.
    case_match; [intros ? ? [= <-] ? ? [=]|].
    apply raises_consistent_bind; [done|]. intros _. apply raises_consistent_ret.
  - rewrite analyze_function_body.
    apply raises_consistent_bind; [by intros ? ? [=]|]; intros _.
    apply raises_consistent_bind; [by intros ? ? [=]|]; intros oldf.
    apply raises_consistent_bind; [by intros ? ? [=]|]; intros _.
    apply raises_consistent_bind; [apply raises_consistent_declare_params|].
    intros pts.
    apply raises_consistent_bind.
    { destruct b; try by intros ? ? [= <-] ? ? [=].
      by apply raises_consistent_scan. }
    intros rt.
    apply raises_consistent_bind; [apply raises_consistent_declare_function|].
    intros _.
    apply raises_consistent_bind; [done|]. intros _.
    apply raises_consistent_bind.
    { intros ? ?. unfold pop_scope. by case_match. }
    intros _. apply raises_consistent_bind; [by intros ? ? [=]|]; intros _.
    apply raises_consistent_ret.
  - rewrite analyze_call_unfold.
    apply raises_consistent_bind; [apply raises_consistent_get_function|].
    intros [[pc pts] rt]. case_bool_decide as Hlen.
    + intros ? ? [= <-] ? ? [= -> -> Heq]. done.
    + apply raises_consistent_bind; [by apply raises_consistent_each|].
      intros _. apply raises_consistent_ret.
  - simpl. apply raises_consistent_bind; [by intros ? ? [=]|]. intros cf.
    case_match; [intros ? ? [= <-] ? ? [=]|].
    destruct v; simpl in *; [done|apply raises_consistent_ret].
  - rewrite analyze_block_unfold.
    apply raises_consistent_bind; [by intros ? ? [=]|]; intros _.
    apply raises_consistent_bind; [by apply raises_consistent_each|]. intros _.
    apply raises_consistent_bind.
    { intros ? ?. unfold pop_scope. by case_match. }
    intros _. apply raises_consistent_ret.
Qed.

(** C6: for a callee declared in the scope chain, the call raises the arity
    error that states the declared and the given counts exactly when the two
    differ; when they agree the arguments are analyzed in order, their types
    are dropped, and the call yields the registered return type, or any when
    none was registered. [function f(a, b) return a end] followed by [f(1)]
    fails with expected 2, got 1. *)
Theorem call_checks_arity_only
    (name : string) (args : list Node) (a : Analyzer.t)
    (param_count : nat) (param_types : list ty) (return_type : pytype) :
  get_function name (symbol_table a) = Ok (param_count, param_types, return_type) ->
  (analyze_node (FunctionCallNode name args) a
   = Raise (SemanticError (ArityMismatch name param_count (length args)))
   <-> length args ≠ param_count)
  /\ (length args = param_count ->
      analyze_node (FunctionCallNode name args) a
      = match analyze_each args a with
        | Ok (_, a') => Ok (Some (default TAny return_type), a')
        | Raise e => Raise e
        end)
  /\ compile "function f(a, b) return a end f(1)"
     = Some (SemanticFailure (SemanticError (ArityMismatch "f" 2 1)))
  /\ message (ArityMismatch "f" 2 1)
     = "Function 'f' expects 2 arguments but got 1.".
Proof.
  intros Hf.
  assert (Hsame : length args = param_count ->
    analyze_node (FunctionCallNode name args) a
    = match analyze_each args a with
      | Ok (_, a') => Ok (Some (default TAny return_type), a')
      | Raise e => Raise e
      end).
  { intros Hlen. rewrite analyze_call_unfold. unfold bind at 1, read_table.
    rewrite Hf. rewrite bool_decide_eq_false_2 by (intros H; by apply H).
    unfold bind, ret. destruct (analyze_each args a) as [[[] a']|e]; [|done].
    by destruct return_type. }
  split; [|split; [exact Hsame|split; vm_compute; reflexivity]].
  split.
  - intros Hraise Hlen.
    pose proof (analyze_node_raises_consistent _ _ _ Hraise name param_count) as Hc.
    apply Hc. by rewrite Hlen.
  - intros Hlen. rewrite analyze_call_unfold. unfold bind, read_table.
    rewrite Hf. by rewrite bool_decide_eq_true_2.
Qed.

Lemma call_checks_arity_only_witness :
  analyze_node (FunctionCallNode "print" []) Analyzer.init
  = Raise (SemanticError (ArityMismatch "print" 1 0))
  /\ analyze_node (FunctionCallNode "print" [StringNode (VStr "a")]) Analyzer.init
     = Ok (Some TAny, Analyzer.init).
Proof.
  split.
  - apply (call_checks_arity_only "print" [] Analyzer.init 1 [TAny] None eq_refl).
    simpl. lia.
  - apply (call_checks_arity_only "print" [StringNode (VStr "a")] Analyzer.init
             1 [TAny] None eq_refl).
    reflexivity.
Defined.

(** ** Function declarations *)

Lemma declare_params_duplicate params pts a :
  (exists x, x ∈ params /\ is_Some (variables (symbol_table a) !! x))
  \/ ~ NoDup params ->
  exists x, x ∈ params
    /\ declare_params params pts a = Raise (SemanticError (DuplicateDeclaration x)).
Proof.
  revert pts a. induction params as [|p params IH]; intros pts a Hdup.
  - destruct Hdup as [(x & Hx & _)|Hdup]; [by apply elem_of_nil in Hx|].
    destruct Hdup. constructor.
  - simpl. unfold bind at 1, on_table, declare_variable.
    destruct (variables (symbol_table a) !! p) eqn:Hp.
    { exists p. split; [left|done]. }
    destruct (IH (pts ++ [TAny])%list
                (Analyzer.mk
                   (mkSymbolTable (<[p:=Some TAny]> (variables (symbol_table a)))
                      (functions (symbol_table a)) (parent (symbol_table a)))
                   (current_function a))) as (x & Hx & Hr).
    { destruct Hdup as [(x & Hx & Hsome)|Hdup].
      - left. exists x. apply elem_of_cons in Hx as [->|Hx].
        + rewrite Hp in Hsome. by destruct Hsome.
        + split; [done|]. simpl. destruct (decide (p = x)) as [->|Hne].
          * rewrite Hp in Hsome. by destruct Hsome.
          * by rewrite lookup_insert_ne.
      - destruct (decide (p ∈ params)) as [Hin|Hnin].
        + left. exists p. split; [done|]. simpl. by rewrite lookup_insert_eq.
        + right. intros Hnd. apply Hdup. by constructor. }
    exists x. split; [by right|done].
Qed.

Lemma declare_params_NoDup params pts a :
  NoDup params ->
  (forall x, x ∈ params -> variables (symbol_table a) !! x = None) ->
  exists a',
    declare_params params pts a = Ok ((pts ++ repeat TAny (length params))%list, a').
Proof.
  revert pts a. induction params as [|p params IH]; intros pts a Hnd Hfresh.
  - exists a. simpl. by rewrite app_nil_r.
  - apply NoDup_cons in Hnd as [Hp Hnd]. simpl.
    unfold bind at 1, on_table, declare_variable.
    rewrite (Hfresh p) by left.
    edestruct (IH (pts ++ [TAny])%list) as (a' & Ha'); [done| |].
    2: { exists a'. rewrite Ha'. by rewrite <- app_assoc. }
    intros x Hx. simpl. rewrite lookup_insert_ne; [|by intros ->].
    apply Hfresh. by right.
Qed.

(** C10: a function declaration whose parameter list repeats a name is
    rejected, at the declaration of its parameters in the fresh scope of the
    function, with the error saying that this variable is already declared in
    this scope; a parameter list without repetition is declared without
    error. [function f(a, a) end] is rejected although it parses. *)
Theorem duplicate_parameter_is_rejected
    (f : string) (params : list string) (body : Node) (a : Analyzer.t) :
  (~ NoDup params ->
   exists x, x ∈ params
     /\ declare_params params [] (function_scope f a)
        = Raise (SemanticError (DuplicateDeclaration x))
     /\ analyze_node (FunctionNode f params body) a
        = Raise (SemanticError (DuplicateDeclaration x))
     /\ message (DuplicateDeclaration x)
        = "Variable '" +:+ x +:+ "' is already declared in this scope")
  /\ (NoDup params ->
      exists scope,
        declare_params params [] (function_scope f a)
        = Ok (repeat TAny (length params), scope))
  /\ front "function f(a, a) end"
     = Some (Ok (BlockNode [FunctionNode "f" ["a"; "a"] (BlockNode [])]))
  /\ compile "function f(a, a) end"
     = Some (SemanticFailure (SemanticError (DuplicateDeclaration "a"))).
Proof.
  split; [|split; [|split; vm_compute; reflexivity]].
  - intros Hdup.
    destruct (declare_params_duplicate params [] (function_scope f a))
      as (x & Hx & Hr); [by right|].
    exists x. split; [done|]. split; [done|]. split; [|done].
    rewrite analyze_function_body. unfold bind at 1. simpl.
    unfold bind at 1. simpl. unfold bind at 1. simpl.
    unfold function_scope in Hr. by rewrite (bind_fail _ _ _ _ Hr).
  - intros Hnd.
    destruct (declare_params_NoDup params [] (function_scope f a) Hnd)
      as (a' & Ha'); [done|]. by exists a'.
Qed.

Lemma duplicate_parameter_is_rejected_witness :
  exists x,
    analyze_node (FunctionNode "f" ["a"; "a"] (BlockNode [])) Analyzer.init
    = Raise (SemanticError (DuplicateDeclaration x)).
Proof.
  destruct (proj1 (duplicate_parameter_is_rejected "f" ["a"; "a"] (BlockNode [])
                     Analyzer.init)) as (x & _ & _ & H & _).
  - apply (bool_decide_unpack _). vm_compute. exact I.
  - exists x. exact H.
Defined.

(** ** The return type of a function *)

Lemma analyze_each_pure args :
  Forall (fun n => expression n = true ->
                   forall a t a', analyze_node n a = Ok (t, a') -> a' = a) args ->
  forallb expression args = true ->
  forall a x a', analyze_each args a = Ok (x, a') -> a' = a.
Proof.
  induction 1 as [|n args Hn _ IH]; simpl; intros Hall a x a' Hrun.
  - by inv_run.
  - apply andb_true_iff in Hall as [He Hall]. inv_run.
    match goal with H : analyze_node n _ = Ok _ |- _ =>
      apply (Hn He) in H; subst end.
    by eapply IH.
Qed.

(** Analyzing an expression declares nothing. *)
Lemma expression_pure n :
  expression n = true ->
  forall a t a', analyze_node n a = Ok (t, a') -> a' = a.
Proof.
  induction n as [| | |l op r IH1 IH2|x v IH|c t e IH1 IH2 IH3|c b IH1 IH2
                  |f ps b IH|f args IH|v IH|stmts IH]
    using Node_induction; simpl; try discriminate; intros He a0 t0 a' Hrun.
  - by inv_run.
  - by inv_run.
  - by inv_run.
  - apply andb_true_iff in He as [Hl Hr].
    apply bind_Ok in Hrun as (lt & a1 & Hrun1 & Hrun).
    apply bind_Ok in Hrun as (rt & a2 & Hrun2 & Hrun).
    apply (IH1 Hl) in Hrun1 as ->. apply (IH2 Hr) in Hrun2 as ->.
    by inv_run.
  - change (analyze_node (FunctionCallNode f args) a0 = Ok (t0, a')) in Hrun.
    rewrite analyze_call_unfold in Hrun.
    apply bind_Ok in Hrun as ([[pc pts] rt] & a1 & Hrun1 & Hrun).
    apply read_table_Ok in Hrun1 as [_ ->].
    case_bool_decide; [discriminate|].
    apply bind_Ok in Hrun as (? & a2 & Hrun2 & Hrun).
    apply (analyze_each_pure _ IH He) in Hrun2 as ->. by inv_run.
Qed.

Lemma scan_returns_last stmts rt0 scope rt scope' :
  Forall (fun v => expression v = true) (valued_returns stmts) ->
  scan_returns stmts rt0 scope = Ok (rt, scope') ->
  scope' = scope
  /\ match last (valued_returns stmts) with
     | Some v => analyze_node v scope = Ok (rt, scope)
     | None => rt = rt0
     end.
Proof.
  revert rt0. induction stmts as [|stmt stmts IH]; intros rt0 Hexpr Hrun.
  - simpl in *. by inv_run.
  - assert (Hskip : (forall v, stmt ≠ ReturnNode (Some v)) ->
      scope' = scope
      /\ match last (valued_returns (stmt :: stmts)) with
         | Some v => analyze_node v scope = Ok (rt, scope)
         | None => rt = rt0
         end).
    { intros Hne.
      assert (valued_returns (stmt :: stmts) = valued_returns stmts) as Hv.
      { destruct stmt as [| | | | | | | | |[v|]|]; try reflexivity.
        by destruct (Hne v). }
      rewrite Hv in *. apply IH; [done|].
      destruct stmt as [| | | | | | | | |[v|]|]; try exact Hrun.
      by destruct (Hne v). }
    destruct stmt as [| | | | | | | | |[v|]|]; try (apply Hskip; discriminate).
    clear Hskip. change (valued_returns (ReturnNode (Some v) :: stmts))
      with (v :: valued_returns stmts) in *.
    apply Forall_cons in Hexpr as [Hv Hexpr]. simpl in Hrun.
    apply bind_Ok in Hrun as (t & a1 & Hrun1 & Hrun).
    pose proof (expression_pure v Hv _ _ _ Hrun1) as ->.
    destruct (IH t Hexpr Hrun) as [-> Hlast]. split; [done|].
    rewrite last_cons. destruct (last (valued_returns stmts)); [done|].
    by subst.
Qed.

(** C1, counterexample: in [function f() return 1 return 'a' end] the first
    direct [return] has type number, and the type registered for [f] is
    string. *)
Lemma first_return_is_not_registered :
  ~ registers_first_return "f" []
      [ReturnNode (Some (NumberNode (VInt 1)));
       ReturnNode (Some (StringNode (VStr "a")))] Analyzer.init.
Proof.
  intros H.
  edestruct H as (scope & scope' & rt & info & Hf & Hv);
    [vm_compute; reflexivity|reflexivity|].
  vm_compute in Hf. simpl in Hv. unfold ret in Hv. congruence.
Qed.

(** C1, as amended: when the declaration of a function whose direct
    [return]s carry expressions is accepted, the function is registered in
    the scope the declaration appears in, with its arity, one [any] per
    parameter, and as return type the type, in the scope holding the
    parameters, of the last direct [return] that carries a value, or no type
    when there is none; statements nested in the body play no part. *)
Theorem function_return_type_is_last_return
    (f : string) (params : list string) (stmts : list Node)
    (a a' : Analyzer.t) (t : pytype) :
  Forall (fun v => expression v = true) (valued_returns stmts) ->
  analyze_node (FunctionNode f params (BlockNode stmts)) a = Ok (t, a') ->
  exists scope rt,
    declare_params params [] (function_scope f a)
    = Ok (repeat TAny (length params), scope)
    /\ declare_function f (length params) (repeat TAny (length params)) rt
         (symbol_table a) = Ok (symbol_table a')
    /\ current_function a' = current_function a
    /\ match last (valued_returns stmts) with
       | Some v => analyze_node v scope = Ok (rt, scope)
       | None => rt = None
       end.
Proof.
  intros Hexpr Hrun. rewrite analyze_function_unfold in Hrun.
  apply bind_Ok in Hrun as (? & a1 & Hpush & Hrun).
  apply bind_Ok in Hrun as (oldf & a2 & Hget & Hrun).
  apply bind_Ok in Hrun as (? & a3 & Hset & Hrun).
  apply bind_Ok in Hrun as (pts & a4 & Hparams & Hrun).
  apply bind_Ok in Hrun as (rt & a5 & Hscan & Hrun).
  apply bind_Ok in Hrun as (? & a6 & Hdecl & Hrun).
  apply bind_Ok in Hrun as (? & a7 & Hbody & Hrun).
  apply bind_Ok in Hrun as (? & a8 & Hpop & Hrun).
  apply bind_Ok in Hrun as (? & a9 & Hrestore & Hrun).
  inv_run. change (Analyzer.mk _ (Some f)) with (function_scope f a) in Hparams.
  destruct (decide (NoDup params)) as [Hnd|Hdup].
  2: { destruct (declare_params_duplicate params [] (function_scope f a))
         as (x & _ & Hr); [by right|]. congruence. }
  destruct (declare_params_NoDup params [] (function_scope f a) Hnd)
    as (a4' & Ha4); [done|].
  rewrite Ha4 in Hparams. simplify_eq.
  destruct (scan_returns_last _ _ _ _ _ Hexpr Hscan) as [-> Hlast].
  pose proof (keeps_frame_declare_params _ _ _ _ _ Ha4) as [Hp4 _].
  simpl in Hp4.
  eapply declare_function_in_old_Ok in Hdecl as (old' & Hold & ->); [|done].
  rewrite analyze_block_result in Hbody.
  destruct (analyze_each stmts _); [|discriminate]. simplify_eq.
  eapply pop_scope_Ok in Hpop; [|done]. subst a8. simpl.
  exists a4, rt. done.
Qed.

Lemma function_return_type_is_last_return_witness :
  exists a' scope,
    analyze_node
      (FunctionNode "f" ["n"]
         (BlockNode [ReturnNode (Some (NumberNode (VInt 1)));
                     ReturnNode (Some (VariableNode "n"))])) Analyzer.init
    = Ok (None, a')
    /\ declare_function "f" 1 [TAny] (Some TAny) (symbol_table Analyzer.init)
       = Ok (symbol_table a')
    /\ analyze_node (VariableNode "n") scope = Ok (Some TAny, scope).
Proof.
  eexists. 
  destruct (function_return_type_is_last_return "f" ["n"]
              [ReturnNode (Some (NumberNode (VInt 1)));
               ReturnNode (Some (VariableNode "n"))]
              Analyzer.init _ None
              ltac:(repeat constructor) ltac:(vm_compute; reflexivity))
    as (scope & rt & Hparams & Hdecl & _ & Hlast).
  exists scope. simpl in Hlast. split; [vm_compute; reflexivity|].
  assert (rt = Some TAny) as ->.
  { simpl in Hparams. unfold bind, on_table, ret in Hparams. simpl in Hparams.
    injection Hparams as <-. vm_compute in Hlast. congruence. }
  split; [exact Hdecl|exact Hlast].
Defined.

(** ** The symbol table on its own *)

(** X1: a variable declared in a scope is found there with its type, every
    other name resolves as before, the functions are untouched, and a second
    declaration of the name in that scope is refused. *)
Theorem declared_variable_is_found
    (x : string) (t : pytype) (s s' : SymbolTable) :
  declare_variable x t s = Ok s' ->
  get_variable x s' = Ok t
  /\ (forall y, y ≠ x -> get_variable y s' = get_variable y s)
  /\ (forall f, get_function f s' = get_function f s)
  /\ (forall t', declare_variable x t' s'
                 = Raise (SemanticError (DuplicateDeclaration x))).
Proof.
  unfold declare_variable. destruct s as [vars funs par]; simpl.
  destruct (vars !! x) eqn:Hx; [done|]. intros [= <-]. simpl.
  rewrite lookup_insert_eq. repeat split; try done.
  intros y Hy. by rewrite lookup_insert_ne.
Qed.

Lemma declared_variable_is_found_witness :
  exists s',
    declare_variable "x" (Some TNumber) (new_table None) = Ok s'
    /\ get_variable "x" s' = Ok (Some TNumber)
    /\ declare_variable "x" (Some TString) s'
       = Raise (SemanticError (DuplicateDeclaration "x")).
Proof.
  eexists. split; [reflexivity|].
  destruct (declared_variable_is_found "x" (Some TNumber) (new_table None) _
              eq_refl) as (Hget & _ & _ & Hdup).
  split; [exact Hget|exact (Hdup (Some TString))].
Defined.

(** X2: a function declared in a scope is found there with its arity,
    parameter types and return type, every other function name resolves as
    before, the variables are untouched, and a second declaration of the
    name in that scope is refused. *)
Theorem declared_function_is_found
    (f : string) (n : nat) (pts : list ty) (rt : pytype) (s s' : SymbolTable) :
  declare_function f n pts rt s = Ok s' ->
  get_function f s' = Ok (n, pts, rt)
  /\ (forall g, g ≠ f -> get_function g s' = get_function g s)
  /\ (forall x, get_variable x s' = get_variable x s)
  /\ (forall n' pts' rt', declare_function f n' pts' rt' s'
                          = Raise (SemanticError (DuplicateFunction f))).
Proof.
  unfold declare_function. destruct s as [vars funs par]; simpl.
  destruct (funs !! f) eqn:Hf; [done|]. intros [= <-]. simpl.
  rewrite lookup_insert_eq. repeat split; try done.
  intros g Hg. by rewrite lookup_insert_ne.
Qed.

Lemma declared_function_is_found_witness :
  exists s',
    declare_function "f" 2 [TAny; TAny] None (new_table None) = Ok s'
    /\ get_function "f" s' = Ok (2%nat, [TAny; TAny], None)
    /\ get_function "g" s' = Raise (SemanticError (UndefinedFunction "g")).
Proof.
  eexists. split; [reflexivity|].
  destruct (declared_function_is_found "f" 2 [TAny; TAny] None (new_table None)
              _ eq_refl) as (Hget & Hother & _ & _).
  split; [exact Hget|]. rewrite (Hother "g") by discriminate. reflexivity.
Defined.

(** X3: a fresh scope under [s] resolves every variable and function as [s]
    does, undefined names included; a name of [s] can be declared again in
    the fresh scope with whatever type, the inner declaration is then the one
    found, and [s] itself, kept as the parent, is unchanged. *)
Theorem nested_scope_shadows (s : SymbolTable) (x : string) (t : pytype) :
  (forall y, get_variable y (new_table (Some s)) = get_variable y s)
  /\ (forall f, get_function f (new_table (Some s)) = get_function f s)
  /\ exists s',
       declare_variable x t (new_table (Some s)) = Ok s'
       /\ get_variable x s' = Ok t
       /\ parent s' = Some s
       /\ (forall y, y ≠ x -> get_variable y s' = get_variable y s).
Proof.
  split; [|split].
  - intros y. simpl. by rewrite lookup_empty.
  - intros f. simpl. by rewrite lookup_empty.
  - eexists. split; [reflexivity|]. simpl. rewrite lookup_insert_eq.
    repeat split. intros y Hy. rewrite lookup_insert_ne by done.
    by rewrite lookup_empty.
Qed.

(** ** What a declaration leaves behind *)

Lemma declare_params_types params pts a pts' a' :
  declare_params params pts a = Ok (pts', a') ->
  pts' = (pts ++ repeat TAny (length params))%list.
Proof.
  revert pts a. induction params as [|p params IH]; intros pts a H; simpl in H.
  - inv_run. by rewrite app_nil_r.
  - inv_run. match goal with H : declare_params _ _ _ = Ok _ |- _ =>
      apply IH in H as -> end.
    by rewrite <- app_assoc.
Qed.

Lemma analyze_function_result f ps b a t a' :
  analyze_node (FunctionNode f ps b) a = Ok (t, a') ->
  exists rt,
    declare_function f (length ps) (repeat TAny (length ps)) rt (symbol_table a)
    = Ok (symbol_table a')
    /\ current_function a' = current_function a
    /\ t = None.
Proof.
  intros Hrun. rewrite analyze_function_body in Hrun.
  apply bind_Ok in Hrun as (? & a1 & Hpush & Hrun).
  apply bind_Ok in Hrun as (oldf & a2 & Hget & Hrun).
  apply bind_Ok in Hrun as (? & a3 & Hset & Hrun).
  apply bind_Ok in Hrun as (pts & a4 & Hparams & Hrun).
  apply bind_Ok in Hrun as (rt & a5 & Hscan & Hrun).
  apply bind_Ok in Hrun as (? & a6 & Hdecl & Hrun).
  apply bind_Ok in Hrun as (? & a7 & Hbody & Hrun).
  apply bind_Ok in Hrun as (? & a8 & Hpop & Hrun).
  apply bind_Ok in Hrun as (? & a9 & Hrestore & Hrun).
  inv_run.
  pose proof (declare_params_types _ _ _ _ _ Hparams) as ->.
  apply keeps_frame_declare_params in Hparams as [Hp4 Hc4].
  assert (frame a4 a5) as [Hp5 Hc5].
  { destruct b; try discriminate. eapply keeps_frame_scan; [|done].
    apply Forall_forall. intros n _.
    destruct (analyze_node_keeps_frame n) as (_ & Hv & _). exact Hv. }
  apply (proj1 (analyze_node_keeps_frame b)) in Hbody as [Hp7 Hc7].
  simpl in Hp4. rewrite Hp4 in Hp5.
  eapply declare_function_in_old_Ok in Hdecl as (old' & Hold & ->); [|done].
  simpl in Hp7.
  eapply pop_scope_Ok in Hpop; [|done]. subst a8. simpl.
  exists rt. done.
Qed.

(** X4: when the declaration of a function is accepted, the name was free
    among the functions of the current scope and is now registered there
    with the number of parameters as arity and one [any] per parameter;
    nothing else has changed: the variables of the scope, the enclosing
    scopes and the function context are as before, so neither the parameters
    nor anything declared in the body is visible afterwards. *)
Theorem function_declaration_effect
    (f : string) (params : list string) (body : Node)
    (a a' : Analyzer.t) (t : pytype) :
  analyze_node (FunctionNode f params body) a = Ok (t, a') ->
  t = None
  /\ functions (symbol_table a) !! f = None
  /\ (exists rt,
        functions (symbol_table a')
        = <[f := (length params, repeat TAny (length params), rt)]>
            (functions (symbol_table a)))
  /\ variables (symbol_table a') = variables (symbol_table a)
  /\ parent (symbol_table a') = parent (symbol_table a)
  /\ current_function a' = current_function a.
Proof.
  intros (rt & Hdecl & Hcf & ->)%analyze_function_result.
  unfold declare_function in Hdecl.
  destruct (functions (symbol_table a) !! f) eqn:Hf; [done|].
  injection Hdecl as <-. simpl. eauto 10.
Qed.

Lemma function_declaration_effect_witness :
  exists a',
    analyze_node
      (FunctionNode "f" ["n"]
         (BlockNode [AssignmentNode "y" (VariableNode "n")])) Analyzer.init
    = Ok (None, a')
    /\ variables (symbol_table a') = variables (symbol_table Analyzer.init)
    /\ functions (symbol_table Analyzer.init) !! "f" = None.
Proof.
  eexists. split; [vm_compute; reflexivity|].
  destruct (function_declaration_effect "f" ["n"]
              (BlockNode [AssignmentNode "y" (VariableNode "n")])
              Analyzer.init _ None ltac:(vm_compute; reflexivity))
    as (_ & Hfree & _ & Hvars & _).
  split; [exact Hvars|exact Hfree].
Defined.

(** ** Types of variables are stable *)

Lemma get_variable_declared_other x t s s' :
  declare_variable x t s = Ok s' ->
  forall y, y ≠ x -> get_variable y s' = get_variable y s.
Proof.
  unfold declare_variable. destruct s as [vars funs par]; simpl.
  destruct (vars !! x); [done|]. intros [= <-] y Hy. simpl.
  by rewrite lookup_insert_ne.
Qed.

Lemma resolves_refl a : resolves a a.
Proof. by intros x t H. Qed.

Lemma resolves_trans a b c : resolves a b -> resolves b c -> resolves a c.
Proof. unfold resolves. eauto. Qed.

Lemma get_variable_declared_function f n pts rt s s' x :
  declare_function f n pts rt s = Ok s' -> get_variable x s' = get_variable x s.
Proof.
  unfold declare_function. destruct s as [vars funs par]; simpl.
  destruct (funs !! f); [done|]. by intros [= <-].
Qed.

Lemma keeps_resolution_each nodes :
  Forall (fun n => keeps_resolution (analyze_node n)) nodes ->
  keeps_resolution (analyze_each nodes).
Proof.
  induction 1 as [|n nodes Hn _ IH]; intros a x a' H; simpl in H.
  - inv_run. apply resolves_refl.
  - inv_run. eapply resolves_trans; [by eapply Hn|by eapply IH].
Qed.

Lemma analyze_node_keeps_resolution n : keeps_resolution (analyze_node n).
Proof.
  induction n as [| | |l op r IH1 IH2|x v IH|c t e IH1 IH2 IH3|c b IH1 IH2
                  |f ps b IH|f args IH|v IH|stmts IH]
    using Node_induction; intros a0 t0 a' Hrun.
  - simpl in Hrun. inv_run. apply resolves_refl.
  - simpl in Hrun. inv_run. apply resolves_refl.
  - simpl in Hrun. inv_run. apply resolves_refl.
  - simpl in Hrun. inv_run;
      (eapply resolves_trans; [by eapply IH1|by eapply IH2]).
  - simpl in Hrun.
    apply bind_Ok in Hrun as (tv & a1 & Hv & Hrun).
    apply bind_Ok in Hrun as (? & a2 & Hdecl & Hrun). inv_run.
    eapply resolves_trans; [by eapply IH|].
    destruct (get_variable_cases x (symbol_table a1))
      as [(t1 & Hx & _)|[Hx Hnone]]; rewrite Hx in Hdecl; inv_run;
      [apply resolves_refl|].
    intros y ty Hy. simpl.
    match goal with H : declare_variable _ _ _ = Ok _ |- _ =>
      pose proof (get_variable_declared_other _ _ _ _ H) as Hother end.
    rewrite Hother; [done|]. intros ->. congruence.
  - simpl in Hrun. inv_run.
    eapply resolves_trans; [by eapply IH1|].
    eapply resolves_trans; [by eapply IH2|].
    destruct e as [e|]; inv_run; [|apply resolves_refl]. by eapply IH3.
  - simpl in Hrun. inv_run.
    eapply resolves_trans; [by eapply IH1|by eapply IH2].
  - apply analyze_function_result in Hrun as (rt & Hdecl & _ & _).
    intros y ty Hy. by rewrite (get_variable_declared_function _ _ _ _ _ _ y Hdecl).
  - rewrite analyze_call_unfold in Hrun. inv_run.
    destruct x as [[pc pts] rt]. inv_run.
    eapply keeps_resolution_each; [|done]. done.
  - simpl in Hrun. inv_run.
    destruct v as [v|]; inv_run; [|apply resolves_refl]. by eapply IH.
  - rewrite analyze_block_result in Hrun.
    destruct (analyze_each stmts _); [|done]. simplify_eq. apply resolves_refl.
Qed.

(** X5: analyzing any node successfully leaves the enclosing scopes and the
    function context as they were, and every variable that resolved to a
    type before still resolves to that same type afterwards: no statement
    changes the recorded type of a variable. *)
Theorem variable_types_are_stable
    (n : Node) (a a' : Analyzer.t) (t : pytype) :
  analyze_node n a = Ok (t, a') ->
  parent (symbol_table a') = parent (symbol_table a)
  /\ current_function a' = current_function a
  /\ forall x tx,
       get_variable x (symbol_table a) = Ok tx ->
       get_variable x (symbol_table a') = Ok tx.
Proof.
  intros Hrun.
  destruct (proj1 (analyze_node_keeps_frame n) _ _ _ Hrun) as [Hp Hc].
  split; [done|]. split; [done|].
  exact (analyze_node_keeps_resolution n _ _ _ Hrun).
Qed.

Lemma variable_types_are_stable_witness :
  let a := Analyzer.mk (mkSymbolTable {[ "x" := Some TNumber ]} ∅ None) None in
  exists a',
    analyze_node (AssignmentNode "x" (StringNode (VStr "s"))) a
    = Ok (Some TString, a')
    /\ get_variable "x" (symbol_table a') = Ok (Some TNumber).
Proof.
  intros a. exists a. split; [vm_compute; reflexivity|].
  eapply (variable_types_are_stable
            (AssignmentNode "x" (StringNode (VStr "s"))) a a (Some TString)).
  - vm_compute. reflexivity.
  - vm_compute. reflexivity.
Defined.

(** ** Returns *)

Lemma scan_returns_first_fails stmts rt v s e :
  head (valued_returns stmts) = Some v ->
  analyze_node v s = Raise e ->
  scan_returns stmts rt s = Raise e.
Proof.
  revert rt. induction stmts as [|stmt stmts IH]; intros rt Hhead Hv; [done|].
  destruct stmt as [| | | | | | | | |[v'|]|]; try (simpl in *; by apply IH).
  simpl in Hhead. injection Hhead as ->. simpl. by rewrite (bind_fail _ _ _ _ Hv).
Qed.

Lemma declare_params_scope params pts a pts' a' :
  declare_params params pts a = Ok (pts', a') ->
  parent (symbol_table a') = parent (symbol_table a)
  /\ forall y, y ∉ params ->
       variables (symbol_table a') !! y = variables (symbol_table a) !! y.
Proof.
  revert pts a. induction params as [|p params IH]; intros pts a H; simpl in H.
  - by inv_run.
  - apply bind_Ok in H as (? & a1 & Hdecl & H). inv_run.
    apply IH in H as [Hp Hv]. simpl in *.
    match goal with H : declare_variable _ _ _ = Ok _ |- _ =>
      unfold declare_variable in H;
      destruct (variables (symbol_table a) !! p) eqn:Hfree; [done|];
      injection H as <- end.
    split; [done|]. intros y Hy. apply not_elem_of_cons in Hy as [Hne Hy].
    rewrite (Hv y Hy). simpl. by rewrite lookup_insert_ne.
Qed.

(** X6: the return type of a function is read before its body is analyzed,
    in the scope that holds the parameters only. When the first direct
    [return] of the body returns a variable that is neither a parameter nor
    visible where the function is declared, the declaration is rejected with
    the variable undefined, also when the body assigns the variable before
    returning it. *)
Theorem returned_local_is_undefined
    (f : string) (params : list string) (stmts : list Node) (x : string)
    (a : Analyzer.t) :
  NoDup params ->
  x ∉ params ->
  get_variable x (symbol_table a) = Raise (SemanticError (UndefinedVariable x)) ->
  head (valued_returns stmts) = Some (VariableNode x) ->
  analyze_node (FunctionNode f params (BlockNode stmts)) a
  = Raise (SemanticError (UndefinedVariable x))
  /\ compile "function f() x = 1 return x end"
     = Some (SemanticFailure (SemanticError (UndefinedVariable "x")))
  /\ compile "function f(x) return x end" = Some Accepted.
Proof.
  intros Hnd Hx Hundef Hhead. split; [|split; vm_compute; reflexivity].
  rewrite analyze_function_unfold.
  rewrite (bind_run push_scope _ a tt (child_scope a)) by reflexivity.
  rewrite (bind_run get_current_function _ _ (current_function a) (child_scope a))
    by reflexivity.
  rewrite (bind_run (set_current_function (Some f)) _ _ tt (function_scope f a))
    by reflexivity.
  destruct (declare_params_NoDup params [] (function_scope f a) Hnd)
    as (scope & Hscope); [done|].
  rewrite (bind_run _ _ _ _ _ Hscope).
  apply bind_fail. eapply scan_returns_first_fails; [done|].
  apply declare_params_scope in Hscope as [Hp Hv]. simpl in Hp.
  simpl. unfold read_table. destruct (symbol_table scope) as [vars funs par].
  simpl in *. rewrite (Hv x Hx), lookup_empty. subst par. by rewrite Hundef.
Qed.

Lemma returned_local_is_undefined_witness :
  analyze_node
    (FunctionNode "f" ["n"]
       (BlockNode [AssignmentNode "x" (NumberNode (VInt 1));
                   ReturnNode (Some (VariableNode "x"))])) Analyzer.init
  = Raise (SemanticError (UndefinedVariable "x")).
Proof.
  apply (returned_local_is_undefined "f" ["n"]
           [AssignmentNode "x" (NumberNode (VInt 1));
            ReturnNode (Some (VariableNode "x"))] "x" Analyzer.init).
  - apply (bool_decide_unpack _). vm_compute. exact I.
  - apply (bool_decide_unpack _). vm_compute. exact I.
  - reflexivity.
  - reflexivity.
Defined.

Lemma analyze_each_no_bare_return nodes :
  Forall (fun n => forall a r,
            analyze_node n a = Ok r -> truthy (current_function a) = false ->
            has_bare_return n = false) nodes ->
  forall a r,
    analyze_each nodes a = Ok r -> truthy (current_function a) = false ->
    existsb has_bare_return nodes = false.
Proof.
  induction 1 as [|n nodes Hn _ IH]; intros a r Hrun Hcf; [done|].
  simpl in Hrun. apply bind_Ok in Hrun as (? & a1 & Hn1 & Hrun).
  simpl. rewrite (Hn _ _ Hn1 Hcf). simpl.
  apply (proj1 (analyze_node_keeps_frame n)) in Hn1 as [_ Hc].
  eapply IH; [done|]. by rewrite Hc.
Qed.

(** X7: a node that is accepted while no function is being analyzed holds no
    [return], neither at the node nor below it outside a function
    declaration; so a [return] at the top level of a program, or nested in
    its blocks, conditionals and loops, makes the analysis fail. *)
Theorem accepted_outside_function_has_no_return
    (n : Node) (a : Analyzer.t) (r : pytype * Analyzer.t) :
  analyze_node n a = Ok r ->
  truthy (current_function a) = false ->
  has_bare_return n = false.
Proof.
  revert a r.
  induction n as [| | |l op r' IH1 IH2|x v IH|c t e IH1 IH2 IH3|c b IH1 IH2
                  |f ps b IH|f args IH|v IH|stmts IH]
    using Node_induction; intros a0 r0 Hrun Hcf; try done.
  - simpl in Hrun.
    apply bind_Ok in Hrun as (lt & a1 & Hl & Hrun).
    apply bind_Ok in Hrun as (rt & a2 & Hr & Hrun).
    simpl. rewrite (IH1 _ _ Hl Hcf). simpl.
    apply (proj1 (analyze_node_keeps_frame l)) in Hl as [_ Hc].
    eapply IH2; [done|]. by rewrite Hc.
  - simpl in Hrun. apply bind_Ok in Hrun as (tv & a1 & Hv & Hrun).
    simpl. by eapply IH.
  - simpl in Hrun. apply bind_Ok in Hrun as (ct & a1 & Hc & Hrun).
    case_bool_decide; [done|].
    apply bind_Ok in Hrun as (? & a2 & Ht & Hrun).
    simpl. rewrite (IH1 _ _ Hc Hcf). simpl.
    apply (proj1 (analyze_node_keeps_frame c)) in Hc as [_ Hc1].
    rewrite <- Hc1 in Hcf. rewrite (IH2 _ _ Ht Hcf). simpl.
    destruct e as [e|]; [|done].
    apply bind_Ok in Hrun as (? & a3 & He & Hrun).
    apply (proj1 (analyze_node_keeps_frame t)) in Ht as [_ Hc2].
    rewrite <- Hc2 in Hcf. by eapply IH3.
  - simpl in Hrun. apply bind_Ok in Hrun as (ct & a1 & Hc & Hrun).
    case_bool_decide; [done|].
    apply bind_Ok in Hrun as (? & a2 & Hb & Hrun).
    simpl. rewrite (IH1 _ _ Hc Hcf). simpl.
    apply (proj1 (analyze_node_keeps_frame c)) in Hc as [_ Hc1].
    rewrite <- Hc1 in Hcf. by eapply IH2.
  - rewrite analyze_call_unfold in Hrun.
    apply bind_Ok in Hrun as ([[pc pts] rt] & a1 & Hf & Hrun).
    apply read_table_Ok in Hf as [_ ->].
    case_bool_decide; [done|].
    apply bind_Ok in Hrun as (? & a2 & Hargs & Hrun).
    simpl. by eapply analyze_each_no_bare_return.
  - simpl in Hrun. unfold bind at 1 in Hrun. simpl in Hrun.
    by rewrite Hcf in Hrun.
  - rewrite analyze_block_unfold in Hrun.
    apply bind_Ok in Hrun as (? & a1 & Hpush & Hrun).
    apply bind_Ok in Hrun as (? & a2 & Hstmts & Hrun).
    unfold push_scope in Hpush. simplify_eq.
    simpl. by eapply analyze_each_no_bare_return.
Qed.

Lemma accepted_outside_function_has_no_return_witness :
  has_bare_return
    (BlockNode [FunctionNode "f" [] (BlockNode [ReturnNode None]);
                FunctionCallNode "f" []]) = false.
Proof.
  eapply (accepted_outside_function_has_no_return _ Analyzer.init).
  - vm_compute. reflexivity.
  - reflexivity.
Defined.

(** ** Redefinition, conditions *)

(** X8: once the parameters of a function declaration are declared and the
    scan of its direct returns has passed, a name that is already among the
    functions of the current scope is refused as already defined, before the
    body is analyzed. A function of an enclosing scope, the built-in [print]
    included, may be declared again in a nested scope: the top level of a
    program is such a nested scope. *)
Theorem function_redefinition_is_rejected
    (f : string) (params : list string) (stmts : list Node)
    (a scope scope' : Analyzer.t) (pts : list ty) (rt : pytype) :
  declare_params params [] (function_scope f a) = Ok (pts, scope) ->
  scan_returns stmts None scope = Ok (rt, scope') ->
  is_Some (functions (symbol_table a) !! f) ->
  analyze_node (FunctionNode f params (BlockNode stmts)) a
  = Raise (SemanticError (DuplicateFunction f))
  /\ compile "function f() end function f(a) end"
     = Some (SemanticFailure (SemanticError (DuplicateFunction "f")))
  /\ compile "function print(a, b) end print(1, 2)" = Some Accepted.
Proof.
  intros Hparams Hscan [info Hf]. split; [|split; vm_compute; reflexivity].
  rewrite analyze_function_unfold.
  rewrite (bind_run push_scope _ a tt (child_scope a)) by reflexivity.
  rewrite (bind_run get_current_function _ _ (current_function a) (child_scope a))
    by reflexivity.
  rewrite (bind_run (set_current_function (Some f)) _ _ tt (function_scope f a))
    by reflexivity.
  rewrite (bind_run _ _ _ _ _ Hparams), (bind_run _ _ _ _ _ Hscan).
  apply bind_fail.
  apply keeps_frame_declare_params in Hparams as [Hp _].
  apply keeps_frame_scan in Hscan as [Hp' _].
  2: { apply Forall_forall. intros n _.
       destruct (analyze_node_keeps_frame n) as (_ & Hv & _). exact Hv. }
  simpl in Hp. rewrite Hp in Hp'.
  unfold declare_function_in_old, on_table, declare_function.
  by rewrite Hp', Hf.
Qed.

Lemma function_redefinition_is_rejected_witness :
  analyze_node (FunctionNode "print" ["a"] (BlockNode [])) Analyzer.init
  = Raise (SemanticError (DuplicateFunction "print")).
Proof.
  eapply (function_redefinition_is_rejected "print" ["a"] [] Analyzer.init).
  - vm_compute. reflexivity.
  - reflexivity.
  - vm_compute. eexists. reflexivity.
Defined.

(** X9: with the condition analyzed, an [if] or a [while] whose condition is
    not of type boolean is rejected with that type, whatever its branches or
    body; with a boolean condition and blocks as branches and body, the
    statement is accepted exactly when the statements of its blocks are, each
    block in a scope of its own, and it leaves the analyzer as the condition
    left it. *)
Theorem condition_must_be_boolean
    (c : Node) (a a1 : Analyzer.t) (ct : pytype) :
  analyze_node c a = Ok (ct, a1) ->
  (ct ≠ Some TBoolean ->
   forall t e b,
     analyze_node (IfNode c t e) a
     = Raise (SemanticError (IfConditionTypeError ct))
     /\ analyze_node (WhileNode c b) a
        = Raise (SemanticError (WhileConditionTypeError ct)))
  /\ (ct = Some TBoolean ->
      forall thens elses body,
        analyze_node (WhileNode c (BlockNode body)) a
        = match analyze_each body (child_scope a1) with
          | Ok _ => Ok (None, a1)
          | Raise e => Raise e
          end
        /\ analyze_node (IfNode c (BlockNode thens) None) a
           = match analyze_each thens (child_scope a1) with
             | Ok _ => Ok (None, a1)
             | Raise e => Raise e
             end
        /\ analyze_node (IfNode c (BlockNode thens) (Some (BlockNode elses))) a
           = match analyze_each thens (child_scope a1) with
             | Ok _ =>
                 match analyze_each elses (child_scope a1) with
                 | Ok _ => Ok (None, a1)
                 | Raise e => Raise e
                 end
             | Raise e => Raise e
             end).
Proof.
  intros Hc. split.
  - intros Hct t e b. simpl. rewrite !(bind_run _ _ _ _ _ Hc).
    by rewrite !bool_decide_eq_true_2.
  - intros -> thens elses body.
    assert (forall stmts (k : pytype -> analysis pytype),
      bind (analyze_node (BlockNode stmts)) k a1
      = match analyze_each stmts (child_scope a1) with
        | Ok _ => k None a1
        | Raise e => Raise e
        end) as Hblock.
    { intros stmts k. unfold bind at 1. rewrite analyze_block_result.
      by destruct (analyze_each stmts (child_scope a1)). }
    split; [|split].
    + change (analyze_node (WhileNode c (BlockNode body)))
        with (let* condition_type := analyze_node c in
              if bool_decide (condition_type ≠ Some TBoolean)
              then raise (WhileConditionTypeError condition_type)
              else analyze_node (BlockNode body);; ret (@None ty)).
      rewrite (bind_run _ _ _ _ _ Hc).
      rewrite bool_decide_eq_false_2 by (intros H; by apply H).
      apply Hblock.
    + change (analyze_node (IfNode c (BlockNode thens) None))
        with (let* condition_type := analyze_node c in
              if bool_decide (condition_type ≠ Some TBoolean)
              then raise (IfConditionTypeError condition_type)
              else analyze_node (BlockNode thens);; ret (@None ty)).
      rewrite (bind_run _ _ _ _ _ Hc).
      rewrite bool_decide_eq_false_2 by (intros H; by apply H).
      apply Hblock.
    + change (analyze_node (IfNode c (BlockNode thens) (Some (BlockNode elses))))
        with (let* condition_type := analyze_node c in
              if bool_decide (condition_type ≠ Some TBoolean)
              then raise (IfConditionTypeError condition_type)
              else analyze_node (BlockNode thens);;
                   analyze_node (BlockNode elses);; ret (@None ty)).
      rewrite (bind_run _ _ _ _ _ Hc).
      rewrite bool_decide_eq_false_2 by (intros H; by apply H).
      rewrite Hblock. destruct (analyze_each thens (child_scope a1)); [|done].
      apply Hblock.
Qed.

Lemma condition_must_be_boolean_witness :
  analyze_node (IfNode (NumberNode (VInt 1)) (BlockNode []) None) Analyzer.init
  = Raise (SemanticError (IfConditionTypeError (Some TNumber)))
  /\ analyze_node
       (WhileNode (BinaryOpNode (NumberNode (VInt 1))
                     (Token.mk LESS (VStr "<") 1 9) (NumberNode (VInt 2)))
          (BlockNode [AssignmentNode "x" (NumberNode (VInt 1))])) Analyzer.init
     = Ok (None, Analyzer.init).
Proof.
  split.
  - destruct (proj1 (condition_must_be_boolean (NumberNode (VInt 1))
                       Analyzer.init Analyzer.init (Some TNumber) eq_refl)
                ltac:(discriminate) (BlockNode []) None (BlockNode []))
      as [Hif _].
    exact Hif.
  - destruct (proj2 (condition_must_be_boolean
                       (BinaryOpNode (NumberNode (VInt 1))
                          (Token.mk LESS (VStr "<") 1 9) (NumberNode (VInt 2)))
                       Analyzer.init Analyzer.init (Some TBoolean) eq_refl)
                eq_refl [] [] [AssignmentNode "x" (NumberNode (VInt 1))])
      as (Hwhile & _).
    rewrite Hwhile. vm_compute. reflexivity.
Defined.

(** ** Recursion *)

Lemma declare_params_functions params pts a pts' a' :
  declare_params params pts a = Ok (pts', a') ->
  functions (symbol_table a') = functions (symbol_table a)
  /\ current_function a' = current_function a.
Proof.
  revert pts a. induction params as [|p params IH]; intros pts a H; simpl in H.
  - by inv_run.
  - apply bind_Ok in H as (? & a1 & Hdecl & H). inv_run.
    apply IH in H as [Hf Hc]. simpl in *.
    match goal with H : declare_variable _ _ _ = Ok _ |- _ =>
      unfold declare_variable in H;
      destruct (variables (symbol_table a) !! p); [done|];
      injection H as <- end.
    done.
Qed.

Lemma analyze_each_numbers values a :
  analyze_each (map NumberNode values) a = Ok (tt, a).
Proof.
  induction values as [|v values IH]; [done|].
  simpl. unfold bind at 1. simpl. exact IH.
Qed.

(** X18: a function is registered before its body is analyzed, so the body
    may call the function itself. For a declaration of [f], free in the
    current scope, whose parameters are distinct and whose body is one call
    of [f] on number literals: the declaration is accepted, and registers
    [f] without return type, when the call gives as many arguments as [f]
    has parameters, and it is rejected with the arity error of [f]
    otherwise. *)
Theorem function_may_call_itself
    (f : string) (params : list string) (values : list pyvalue)
    (a : Analyzer.t) :
  NoDup params ->
  functions (symbol_table a) !! f = None ->
  analyze_node
    (FunctionNode f params (BlockNode [FunctionCallNode f (map NumberNode values)]))
    a
  = if decide (length values = length params)
    then Ok (None,
             Analyzer.mk
               (mkSymbolTable (variables (symbol_table a))
                  (<[f := (length params, repeat TAny (length params), None)]>
                     (functions (symbol_table a)))
                  (parent (symbol_table a)))
               (current_function a))
    else Raise (SemanticError
                  (ArityMismatch f (length params) (length values))).
Proof.
  intros Hnd Hfree. rewrite analyze_function_unfold.
  rewrite (bind_run push_scope _ a tt (child_scope a)) by reflexivity.
  rewrite (bind_run get_current_function _ _ (current_function a) (child_scope a))
    by reflexivity.
  rewrite (bind_run (set_current_function (Some f)) _ _ tt (function_scope f a))
    by reflexivity.
  destruct (declare_params_NoDup params [] (function_scope f a) Hnd)
    as (scope & Hscope); [done|].
  rewrite (bind_run _ _ _ _ _ Hscope).
  destruct (declare_params_scope _ _ _ _ _ Hscope) as [Hp _].
  destruct (declare_params_functions _ _ _ _ _ Hscope) as [Hfuns Hcf].
  simpl in Hp, Hfuns, Hcf.
  rewrite (bind_run (scan_returns _ None) _ scope None scope) by reflexivity.
  set (old' := mkSymbolTable (variables (symbol_table a))
                 (<[f := (length params, repeat TAny (length params), None)]>
                    (functions (symbol_table a)))
                 (parent (symbol_table a))).
  set (inner := Analyzer.mk
                  (mkSymbolTable (variables (symbol_table scope))
                     (functions (symbol_table scope)) (Some old'))
                  (current_function scope)).
  rewrite (bind_run (declare_function_in_old _ _ _ _) _ scope tt inner).
  2: { unfold declare_function_in_old, on_table, declare_function.
       by rewrite Hp, Hfree. }
  unfold bind at 1. rewrite analyze_block_result.
  assert (analyze_each [FunctionCallNode f (map NumberNode values)]
            (child_scope inner)
          = if decide (length values = length params)
            then Ok (tt, child_scope inner)
            else Raise (SemanticError
                          (ArityMismatch f (length params) (length values))))
    as ->.
  { change (analyze_each [?n]) with (bind (analyze_node n) (fun _ => ret tt)).
    unfold bind at 1. rewrite analyze_call_unfold. unfold bind at 1.
    unfold read_table. simpl get_function. rewrite !lookup_empty, Hfuns.
    rewrite lookup_empty, lookup_insert_eq. rewrite length_map.
    destruct (decide (length values = length params)) as [Heq|Hne].
    - rewrite bool_decide_eq_false_2 by (intros H; by apply H).
      unfold bind at 1. by rewrite analyze_each_numbers.
    - by rewrite bool_decide_eq_true_2. }
  destruct (decide (length values = length params)); [|done].
  unfold bind, pop_scope, set_current_function, ret. reflexivity.
Qed.

Lemma function_may_call_itself_witness :
  exists a',
    analyze_node
      (FunctionNode "f" ["n"]
         (BlockNode [FunctionCallNode "f" [NumberNode (VInt 1)]])) Analyzer.init
    = Ok (None, a')
    /\ analyze_node
         (FunctionNode "f" ["n"] (BlockNode [FunctionCallNode "f" []]))
         Analyzer.init
       = Raise (SemanticError (ArityMismatch "f" 1 0)).
Proof.
  eexists. split.
  - etransitivity.
    + apply (function_may_call_itself "f" ["n"] [VInt 1] Analyzer.init);
        [apply (bool_decide_unpack _); vm_compute; exact I|reflexivity].
    + reflexivity.
  - etransitivity.
    + apply (function_may_call_itself "f" ["n"] [] Analyzer.init);
        [apply (bool_decide_unpack _); vm_compute; exact I|reflexivity].
    + reflexivity.
Defined.

(** ** Parsing assignments and returns *)

Import Parser.
Local Open Scope parser_scope.

(** C3, counterexample: [local x = 1] and [x = 1] are parsed to the same
    tree, whose assignment node holds the name and the value only. *)
Lemma local_is_not_recorded :
  front "local x = 1" = front "x = 1"
  /\ front "x = 1"
     = Some (Ok (BlockNode [AssignmentNode "x" (NumberNode (VInt 1))])).
Proof. split; vm_compute; reflexivity. Qed.

(** C3, as amended: an assignment statement is parsed to an assignment node
    that records the target name and the value expression and nothing else;
    with or without a leading [local], the statement [x = e] is parsed from
    the same point after the [=] sign to the same node. *)
Theorem assignment_node_ignores_local
    (fuel : nat) (b b' tl tx ta : Token.t) (rest : list Token.t) :
  Token.type tl = LOCAL ->
  Token.type tx = IDENTIFIER ->
  Token.type ta = ASSIGN ->
  parse_statement (S fuel) (Parser.mk b (tl :: tx :: ta :: rest))
  = assignment_tail fuel (text_of (Token.value tx)) (Parser.mk ta rest)
  /\ parse_statement (S fuel) (Parser.mk b' (tx :: ta :: rest))
     = assignment_tail fuel (text_of (Token.value tx)) (Parser.mk ta rest).
Proof.
  destruct tl as [tyl vl ll cl], tx as [tyx vx lx cx], ta as [tya va la ca].
  simpl. intros -> -> ->. split; [reflexivity|].
  destruct b' as [[] vb lb cb]; reflexivity.
Qed.

Lemma assignment_node_ignores_local_witness :
  parse_statement 3
    (Parser.mk (Token.mk EOF VNone 1 12)
       [Token.mk LOCAL (VStr "local") 1 1; Token.mk IDENTIFIER (VStr "x") 1 7;
        Token.mk ASSIGN (VStr "=") 1 9; Token.mk NUMBER (VInt 1) 1 11;
        Token.mk EOF VNone 1 12])
  = Ok (AssignmentNode "x" (NumberNode (VInt 1)),
        Parser.mk (Token.mk NUMBER (VInt 1) 1 11) [Token.mk EOF VNone 1 12]).
Proof.
  rewrite (proj1 (assignment_node_ignores_local 2
                    (Token.mk EOF VNone 1 12) (Token.mk EOF VNone 1 12)
                    (Token.mk LOCAL (VStr "local") 1 1)
                    (Token.mk IDENTIFIER (VStr "x") 1 7)
                    (Token.mk ASSIGN (VStr "=") 1 9)
                    [Token.mk NUMBER (VInt 1) 1 11; Token.mk EOF VNone 1 12]
                    eq_refl eq_refl eq_refl)).
  vm_compute. reflexivity.
Defined.

(** C9, the code at the failing inputs: a [return] directly before [end] or
    [else] is parsed to a return node without value, and the parser takes no
    token for a value; a [return] followed by [;] or by the end of the input
    is a parse error, as the parser then reads an expression. *)
Theorem bare_return_needs_end_or_else :
  (forall fuel b tok rest,
     Token.type tok = END \/ Token.type tok = ELSE ->
     parse_return_statement fuel (Parser.mk b (tok :: rest))
     = Ok (ReturnNode None, Parser.mk b (tok :: rest)))
  /\ front "function f() return end"
     = Some (Ok (BlockNode [FunctionNode "f" [] (BlockNode [ReturnNode None])]))
  /\ front "function f() return; end"
     = Some (Raise (ParseError "Unexpected token"
                      (Token.mk SEMICOLON (VStr ";") 1 20)))
  /\ front "return"
     = Some (Raise (ParseError "Unexpected token" (Token.mk EOF VNone 1 7)))
  /\ front "return;"
     = Some (Raise (ParseError "Unexpected token"
                      (Token.mk SEMICOLON (VStr ";") 1 7))).
Proof.
  split; [|repeat split; vm_compute; reflexivity].
  intros fuel b [ty v l c] rest [Hty|Hty]; simpl in Hty; subst; reflexivity.
Qed.

Lemma bare_return_needs_end_or_else_witness :
  parse_return_statement 1
    (Parser.mk (Token.mk RETURN (VStr "return") 1 1) [Token.mk END (VStr "end") 1 8])
  = Ok (ReturnNode None,
        Parser.mk (Token.mk RETURN (VStr "return") 1 1)
          [Token.mk END (VStr "end") 1 8]).
Proof.
  apply (proj1 bare_return_needs_end_or_else). left. reflexivity.
Defined.

(** ** Parsed expressions *)

Lemma pbind_Ok {A B} (m : parser A) (k : A -> parser B) p r :
  bind m k p = Ok r <-> exists x p1, m p = Ok (x, p1) /\ k x p1 = Ok r.
Proof.
  unfold bind. destruct (m p) as [[x p1]|e]; split.
  - eauto.
  - intros (? & ? & [= <- <-] & ?); done.
  - done.
  - intros (? & ? & [=] & ?).
Qed.

Ltac inv_parse :=
  repeat match goal with
  | H : bind _ _ _ = Ok _ |- _ =>
      apply pbind_Ok in H; destruct H as (? & ? & ? & H)
  | H : ret _ _ = Ok _ |- _ => unfold ret in H; simplify_eq
  | H : raise _ _ = Ok _ |- _ => discriminate H
  | H : Ok _ = Ok _ |- _ => simplify_eq
  | H : Raise _ = Ok _ |- _ => discriminate H
  end.

Lemma binary_loop_expression fuel types operand :
  yields_expressions operand ->
  forall expr, expression expr = true ->
  yields_expressions (binary_loop fuel types operand expr).
Proof.
  intros Hop. induction fuel as [|fuel IH]; intros expr Hexpr p e p' H;
    simpl in H; apply pbind_Ok in H as (m & p1 & _ & H); destruct m; inv_parse;
    try done.
  eapply IH; [|done]. simpl. rewrite Hexpr. by eapply Hop.
Qed.

Lemma arguments_loop_expression fuel pe :
  yields_expressions pe ->
  forall args p args' p',
    forallb expression args = true ->
    arguments_loop fuel pe args p = Ok (args', p') ->
    forallb expression args' = true.
Proof.
  intros Hpe. induction fuel as [|fuel IH]; intros args p args' p' Hargs H;
    simpl in H; apply pbind_Ok in H as (m & p1 & _ & H); destruct m; inv_parse;
    try done.
  eapply IH; [|done]. rewrite forallb_app, Hargs. simpl.
  rewrite andb_true_r. by eapply Hpe.
Qed.

Lemma parse_primary_expression fuel pe :
  yields_expressions pe -> yields_expressions (parse_primary fuel pe).
Proof.
  intros Hpe p e p' H. unfold parse_primary in H.
  apply pbind_Ok in H as (m1 & p1 & _ & H). destruct m1; [by inv_parse|].
  apply pbind_Ok in H as (m2 & p2 & _ & H). destruct m2; [by inv_parse|].
  apply pbind_Ok in H as (m3 & p3 & _ & H). destruct m3.
  - apply pbind_Ok in H as (tok & p4 & _ & H).
    apply pbind_Ok in H as (m4 & p5 & _ & H). destruct m4; [|by inv_parse].
    apply pbind_Ok in H as (args & p6 & Hargs & H). inv_parse. simpl.
    unfold parse_arguments in Hargs.
    apply pbind_Ok in Hargs as (c & p7 & _ & Hargs).
    destruct c; simpl in Hargs; [by inv_parse|].
    apply pbind_Ok in Hargs as (e0 & p8 & He0 & Hargs).
    eapply arguments_loop_expression; [done| |done]. simpl.
    rewrite andb_true_r. by eapply Hpe.
  - apply pbind_Ok in H as (m4 & p4 & _ & H). destruct m4; [|by inv_parse].
    inv_parse. by eapply Hpe.
Qed.

Lemma parse_concat_expression fuel pe :
  yields_expressions pe -> yields_expressions (parse_concat fuel pe).
Proof.
  intros Hpe.
  assert (yields_expressions (parse_multiplicative fuel pe)) as Hmul.
  { intros p e p' H. unfold parse_multiplicative in H.
    apply pbind_Ok in H as (e0 & p0 & H0 & H).
    eapply binary_loop_expression;
      [by apply parse_primary_expression| |done].
    by eapply parse_primary_expression. }
  assert (yields_expressions (parse_additive fuel pe)) as Hadd.
  { intros p e p' H. unfold parse_additive in H.
    apply pbind_Ok in H as (e0 & p0 & H0 & H).
    eapply binary_loop_expression; [done| |done]. by eapply Hmul. }
  assert (yields_expressions (parse_comparison fuel pe)) as Hcmp.
  { intros p e p' H. unfold parse_comparison in H.
    apply pbind_Ok in H as (e0 & p0 & H0 & H).
    eapply binary_loop_expression; [done| |done]. by eapply Hadd. }
  intros p e p' H. unfold parse_concat in H.
  apply pbind_Ok in H as (e0 & p0 & H0 & H).
  eapply binary_loop_expression; [done| |done]. by eapply Hcmp.
Qed.

Lemma parse_expression_expression fuel :
  yields_expressions (parse_expression fuel).
Proof.
  induction fuel as [|fuel IH]; [by intros p e p' H|].
  simpl. by apply parse_concat_expression.
Qed.

(** X10: whatever the parser returns as an expression is built from number
    and string literals, variables, binary operators and calls only, and the
    analysis of such a node, when it succeeds, declares nothing: the
    analyzer is afterwards in the state it was in before. *)
Theorem parsed_expression_is_pure
    (fuel : nat) (p p' : Parser.t) (e : Node) :
  parse_expression fuel p = Ok (e, p') ->
  expression e = true
  /\ forall a t a', analyze_node e a = Ok (t, a') -> a' = a.
Proof.
  intros H%parse_expression_expression. split; [done|].
  by apply expression_pure.
Qed.

Lemma parsed_expression_is_pure_witness :
  expression (BinaryOpNode (NumberNode (VInt 1)) (Token.mk PLUS (VStr "+") 1 3)
                (VariableNode "x")) = true.
Proof.
  eapply (parsed_expression_is_pure 3
            (Parser.mk (Token.mk EOF VNone 1 6)
               [Token.mk NUMBER (VInt 1) 1 1; Token.mk PLUS (VStr "+") 1 3;
                Token.mk IDENTIFIER (VStr "x") 1 5; Token.mk EOF VNone 1 6])).
  vm_compute. reflexivity.
Defined.

(** ** Associativity and precedence *)

Lemma last_after_two {A} (l : list A) (x y d : A) :
  List.last (x :: y :: l) d = List.last l y.
Proof.
  revert x y d. induction l as [|z l IH]; intros x y d; [done|].
  change (List.last (y :: z :: l) d = List.last (z :: l) y).
  rewrite IH. destruct l as [|w l]; [done|]. symmetry. apply (IH y z).
Qed.

Lemma multiplicative_loop_chain pe pairs :
  Forall (fun p => (Token.type (fst p) = STAR \/ Token.type (fst p) = SLASH)
                   /\ Token.type (snd p) = NUMBER) pairs ->
  forall fuel fuel' expr b stop rest,
    (length pairs <= fuel)%nat ->
    Token.type stop ≠ STAR -> Token.type stop ≠ SLASH ->
    binary_loop fuel [STAR; SLASH] (parse_primary fuel' pe) expr
      (Parser.mk b (chain_tokens pairs ++ stop :: rest)%list)
    = Ok (chain_tree expr pairs,
          Parser.mk (List.last (chain_tokens pairs) b) (stop :: rest)).
Proof.
  induction 1 as [|[op n] pairs [Hop Hn] _ IH];
    intros fuel fuel' expr b stop rest Hfuel Hs1 Hs2.
  - destruct stop as [ty v l c]. simpl in *.
    destruct fuel; simpl; unfold bind, check, is_at_end, peek, ret; simpl;
      destruct ty; simpl; try done.
  - destruct fuel as [|fuel]; [simpl in Hfuel; lia|].
    change (chain_tokens ((op, n) :: pairs))
      with (op :: n :: chain_tokens pairs).
    assert (binary_loop (S fuel) [STAR; SLASH] (parse_primary fuel' pe) expr
              (Parser.mk b ((op :: n :: chain_tokens pairs) ++ stop :: rest)%list)
            = binary_loop fuel [STAR; SLASH] (parse_primary fuel' pe)
                (BinaryOpNode expr op (NumberNode (Token.value n)))
                (Parser.mk n (chain_tokens pairs ++ stop :: rest)%list)) as ->.
    { destruct op as [tyo vo lo co], n as [tyn vn ln cn]. simpl in Hop, Hn.
      subst tyn. destruct Hop as [-> | ->]; reflexivity. }
    rewrite IH by (simpl in Hfuel; lia || done).
    change (chain_tree expr ((op, n) :: pairs))
      with (chain_tree (BinaryOpNode expr op (NumberNode (Token.value n))) pairs).
    do 3 f_equal. symmetry. apply last_after_two.
Qed.

(** X11: a number followed by any number of [*] or [/] operators, each with
    a number after it, and then by a token that is neither, is parsed at the
    multiplicative level to the left-leaning tree of these operators: the
    operators of one level associate to the left. The parser stops in front
    of the token that ends the chain. *)
Theorem multiplicative_chain_leans_left
    (fuel : nat) (pe : parser Node) (b n0 stop : Token.t)
    (pairs : list (Token.t * Token.t)) (rest : list Token.t) :
  Token.type n0 = NUMBER ->
  Forall (fun p => (Token.type (fst p) = STAR \/ Token.type (fst p) = SLASH)
                   /\ Token.type (snd p) = NUMBER) pairs ->
  Token.type stop ≠ STAR -> Token.type stop ≠ SLASH ->
  (length pairs <= fuel)%nat ->
  parse_multiplicative fuel pe
    (Parser.mk b (n0 :: chain_tokens pairs ++ stop :: rest)%list)
  = Ok (chain_tree (NumberNode (Token.value n0)) pairs,
        Parser.mk (List.last (chain_tokens pairs) n0) (stop :: rest)).
Proof.
  intros Hn0 Hpairs Hs1 Hs2 Hfuel. unfold parse_multiplicative.
  assert (parse_primary fuel pe
            (Parser.mk b (n0 :: chain_tokens pairs ++ stop :: rest)%list)
          = Ok (NumberNode (Token.value n0),
                Parser.mk n0 (chain_tokens pairs ++ stop :: rest)%list)) as Hp.
  { destruct n0 as [ty v l c]. simpl in Hn0. subst ty. reflexivity. }
  unfold bind at 1. rewrite Hp.
  by apply multiplicative_loop_chain.
Qed.

Lemma multiplicative_chain_leans_left_witness :
  let n k c := Token.mk NUMBER (VInt k) 1 c in
  let op c := Token.mk SLASH (VStr "/") 1 c in
  parse_multiplicative 2 (parse_expression 2)
    (Parser.mk (Token.mk EOF VNone 1 10)
       [n 8%N 1; op 3; n 4%N 5; op 7; n 2%N 9; Token.mk EOF VNone 1 10])
  = Ok (BinaryOpNode
          (BinaryOpNode (NumberNode (VInt 8)) (op 3) (NumberNode (VInt 4)))
          (op 7) (NumberNode (VInt 2)),
        Parser.mk (n 2%N 9) [Token.mk EOF VNone 1 10]).
Proof.
  intros n op.
  apply (multiplicative_chain_leans_left 2 (parse_expression 2)
           (Token.mk EOF VNone 1 10) (n 8%N 1) (Token.mk EOF VNone 1 10)
           [(op 3, n 4%N 5); (op 7, n 2%N 9)] []).
  - reflexivity.
  - constructor; [split; [right|]; reflexivity|].
    constructor; [split; [right|]; reflexivity|]. constructor.
  - discriminate.
  - discriminate.
  - simpl. lia.
Defined.

(** X12: for number tokens [x], [y], [z], an additive operator [+] or [-],
    a multiplicative operator [*] or [/] and a following token that is no
    binary operator: [x + y * z] is parsed to [x + (y * z)] and [x * y + z]
    to [(x * y) + z], the multiplicative operator binding tighter wherever
    it stands. *)
Theorem multiplication_binds_tighter
    (fuel : nat) (b x y z add mul stop : Token.t) (rest : list Token.t) :
  Token.type x = NUMBER -> Token.type y = NUMBER -> Token.type z = NUMBER ->
  Token.type add = PLUS \/ Token.type add = MINUS ->
  Token.type mul = STAR \/ Token.type mul = SLASH ->
  binary_operator (Token.type stop) = false ->
  parse_expression (S (S fuel)) (Parser.mk b (x :: add :: y :: mul :: z :: stop :: rest))
  = Ok (BinaryOpNode (NumberNode (Token.value x)) add
          (BinaryOpNode (NumberNode (Token.value y)) mul
             (NumberNode (Token.value z))),
        Parser.mk z (stop :: rest))
  /\ parse_expression (S (S fuel)) (Parser.mk b (x :: mul :: y :: add :: z :: stop :: rest))
     = Ok (BinaryOpNode
             (BinaryOpNode (NumberNode (Token.value x)) mul
                (NumberNode (Token.value y)))
             add (NumberNode (Token.value z)),
           Parser.mk z (stop :: rest)).
Proof.
  destruct x as [tx vx lx cx], y as [ty vy ly cy], z as [tz vz lz cz],
    add as [ta va la ca], mul as [tm vm lm cm], stop as [ts vs ls cs].
  simpl. intros -> -> -> Hadd Hmul Hstop.
  destruct Hadd as [-> | ->], Hmul as [-> | ->];
    destruct ts; try discriminate Hstop; destruct fuel; split; reflexivity.
Qed.

Lemma multiplication_binds_tighter_witness :
  parse_expression 2
    (Parser.mk (Token.mk EOF VNone 1 10)
       [Token.mk NUMBER (VInt 1) 1 1; Token.mk PLUS (VStr "+") 1 3;
        Token.mk NUMBER (VInt 2) 1 5; Token.mk STAR (VStr "*") 1 7;
        Token.mk NUMBER (VInt 3) 1 9; Token.mk EOF VNone 1 10])
  = Ok (BinaryOpNode (NumberNode (VInt 1)) (Token.mk PLUS (VStr "+") 1 3)
          (BinaryOpNode (NumberNode (VInt 2)) (Token.mk STAR (VStr "*") 1 7)
             (NumberNode (VInt 3))),
        Parser.mk (Token.mk NUMBER (VInt 3) 1 9) [Token.mk EOF VNone 1 10]).
Proof.
  apply (multiplication_binds_tighter 0
    (Token.mk EOF VNone 1 10)
    (Token.mk NUMBER (VInt 1) 1 1) (Token.mk NUMBER (VInt 2) 1 5)
    (Token.mk NUMBER (VInt 3) 1 9) (Token.mk PLUS (VStr "+") 1 3)
    (Token.mk STAR (VStr "*") 1 7) (Token.mk EOF VNone 1 10) []
    eq_refl eq_refl eq_refl (or_introl eq_refl) (or_introl eq_refl) eq_refl).
Defined.

(** ** Parameter lists *)

Lemma parameters_loop_chain pairs :
  Forall (fun p => Token.type (fst p) = COMMA
                   /\ Token.type (snd p) = IDENTIFIER) pairs ->
  forall fuel params b stop rest,
    (length pairs <= fuel)%nat ->
    Token.type stop ≠ COMMA ->
    parameters_loop fuel params
      (Parser.mk b (chain_tokens pairs ++ stop :: rest)%list)
    = Ok ((params ++ map (fun p => text_of (Token.value (snd p))) pairs)%list,
          Parser.mk (List.last (chain_tokens pairs) b) (stop :: rest)).
Proof.
  induction 1 as [|[comma q] pairs [Hc Hq] _ IH];
    intros fuel params b stop rest Hfuel Hstop.
  - destruct stop as [ty v l c]. simpl in *. rewrite app_nil_r.
    destruct fuel; simpl; unfold bind, check, is_at_end, peek, ret; simpl;
      destruct ty; simpl; try done.
  - destruct fuel as [|fuel]; [simpl in Hfuel; lia|].
    change (chain_tokens ((comma, q) :: pairs))
      with (comma :: q :: chain_tokens pairs).
    assert (parameters_loop (S fuel) params
              (Parser.mk b ((comma :: q :: chain_tokens pairs) ++ stop :: rest)%list)
            = parameters_loop fuel (params ++ [text_of (Token.value q)])%list
                (Parser.mk q (chain_tokens pairs ++ stop :: rest)%list)) as ->.
    { destruct comma as [tyc vc lc cc], q as [tyq vq lq cq]. simpl in Hc, Hq.
      subst. reflexivity. }
    rewrite IH by (simpl in Hfuel; lia || done).
    f_equal. f_equal.
    + simpl. by rewrite <- app_assoc.
    + f_equal. symmetry. apply (last_after_two (chain_tokens pairs) comma q b).
Qed.

(** X13: a function header [name ( p1 , p2 , ... )] with any number of
    parameters, followed by [end], is parsed to the declaration of [name]
    with the parameter names in the order written and an empty body, and the
    parser has then taken the [end]; with nothing between the parentheses
    the parameter list is empty. *)
Theorem function_parameters_are_collected
    (fuel : nat) (ps : parser Node) (b name lp first rp endt : Token.t)
    (pairs : list (Token.t * Token.t)) (rest : list Token.t) :
  Token.type name = IDENTIFIER -> Token.type lp = LPAREN ->
  Token.type first = IDENTIFIER ->
  Forall (fun p => Token.type (fst p) = COMMA
                   /\ Token.type (snd p) = IDENTIFIER) pairs ->
  Token.type rp = RPAREN -> Token.type endt = END ->
  (length pairs <= fuel)%nat ->
  parse_function_definition fuel ps
    (Parser.mk b (name :: lp :: first :: chain_tokens pairs ++ rp :: endt :: rest)%list)
  = Ok (FunctionNode (text_of (Token.value name))
          (text_of (Token.value first)
           :: map (fun p => text_of (Token.value (snd p))) pairs)
          (BlockNode []),
        Parser.mk endt rest)
  /\ parse_function_definition fuel ps
       (Parser.mk b (name :: lp :: rp :: endt :: rest))
     = Ok (FunctionNode (text_of (Token.value name)) [] (BlockNode []),
           Parser.mk endt rest).
Proof.
  intros Hname Hlp Hfirst Hpairs Hrp Hend Hfuel.
  destruct name as [tn vn ln cn], lp as [tl vl ll cl], first as [tf vf lf cf],
    rp as [tr vr lr cr], endt as [te ve le ce].
  simpl in *. subst. split; [|destruct fuel; reflexivity].
  unfold parse_function_definition.
  unfold bind at 1. simpl. unfold bind at 1. simpl. unfold bind at 1. simpl.
  unfold bind at 1. unfold bind at 1. simpl.
  rewrite (parameters_loop_chain pairs Hpairs fuel _ _
             (Token.mk RPAREN vr lr cr)) by (done || discriminate).
  simpl. destruct fuel; reflexivity.
Qed.

Lemma function_parameters_are_collected_witness :
  parse_function_definition 1 (parse_statement 1)
    (Parser.mk (Token.mk FUNCTION (VStr "function") 1 1)
       [Token.mk IDENTIFIER (VStr "f") 1 10; Token.mk LPAREN (VStr "(") 1 11;
        Token.mk IDENTIFIER (VStr "a") 1 12; Token.mk COMMA (VStr ",") 1 13;
        Token.mk IDENTIFIER (VStr "b") 1 15; Token.mk RPAREN (VStr ")") 1 16;
        Token.mk END (VStr "end") 1 18; Token.mk EOF VNone 1 21])
  = Ok (FunctionNode "f" ["a"; "b"] (BlockNode []),
        Parser.mk (Token.mk END (VStr "end") 1 18) [Token.mk EOF VNone 1 21]).
Proof.
  apply (function_parameters_are_collected 1 (parse_statement 1)
           (Token.mk FUNCTION (VStr "function") 1 1)
           (Token.mk IDENTIFIER (VStr "f") 1 10)
           (Token.mk LPAREN (VStr "(") 1 11)
           (Token.mk IDENTIFIER (VStr "a") 1 12)
           (Token.mk RPAREN (VStr ")") 1 16)
           (Token.mk END (VStr "end") 1 18)
           [(Token.mk COMMA (VStr ",") 1 13, Token.mk IDENTIFIER (VStr "b") 1 15)]
           [Token.mk EOF VNone 1 21]);
    try reflexivity;
    try (constructor; [split; reflexivity|constructor]); simpl; lia.
Defined.

(** ** Missing keywords *)

(** X17: when the condition of an [if] has been parsed and the next token is
    not [then], the statement is a parse error that asks for [then] and
    quotes that token, the end-of-input token included; likewise a [while]
    whose condition is not followed by [do]. *)
Theorem missing_then_or_do
    (fuel : nat) (ps : parser Node) (p : Parser.t) (c : Node)
    (b tok : Token.t) (rest : list Token.t) :
  parse_expression fuel p = Ok (c, Parser.mk b (tok :: rest)) ->
  (Token.type tok ≠ THEN ->
   parse_if_statement fuel ps p
   = Raise (ParseError "Expected 'then' after if" tok))
  /\ (Token.type tok ≠ DO ->
      parse_while_statement fuel ps p
      = Raise (ParseError "Expected 'do' after while condition" tok)).
Proof.
  intros Hc. split; intros Htok.
  - unfold parse_if_statement. unfold bind at 1. rewrite Hc.
    destruct tok as [ty v l k]. simpl in Htok.
    destruct ty; try done; reflexivity.
  - unfold parse_while_statement. unfold bind at 1. rewrite Hc.
    destruct tok as [ty v l k]. simpl in Htok.
    destruct ty; try done; reflexivity.
Qed.

Lemma missing_then_or_do_witness :
  parse_if_statement 2 (parse_statement 2)
    (Parser.mk (Token.mk IF (VStr "if") 1 1)
       [Token.mk IDENTIFIER (VStr "x") 1 4; Token.mk EOF VNone 1 5])
  = Raise (ParseError "Expected 'then' after if" (Token.mk EOF VNone 1 5)).
Proof.
  apply (missing_then_or_do 2 (parse_statement 2)
           (Parser.mk (Token.mk IF (VStr "if") 1 1)
              [Token.mk IDENTIFIER (VStr "x") 1 4; Token.mk EOF VNone 1 5])
           (VariableNode "x") (Token.mk IDENTIFIER (VStr "x") 1 4)
           (Token.mk EOF VNone 1 5) [] eq_refl).
  discriminate.
Defined.

(** ** The lexer runs to the end of the input *)

Lemma get_Some (s : string) (n : nat) :
  (n < String.length s)%nat -> exists c, String.get n s = Some c.
Proof.
  revert n. induction s as [|c s IH]; intros n Hn; simpl in *; [lia|].
  destruct n; [eauto|]. apply IH. lia.
Qed.

Lemma is_at_end_false l :
  Lexer.is_at_end l = false <-> (Lexer.current l < String.length (Lexer.source l))%nat.
Proof. unfold Lexer.is_at_end. rewrite Nat.leb_gt. done. Qed.

Lemma is_at_end_true l :
  Lexer.is_at_end l = true <-> (String.length (Lexer.source l) <= Lexer.current l)%nat.
Proof. unfold Lexer.is_at_end. rewrite Nat.leb_le. done. Qed.

Lemma advances_refl l : advances l l.
Proof.
  split; try done; exists []; rewrite app_nil_r; [split; [done|constructor]|done].
Qed.

Lemma advances_trans l1 l2 l3 : advances l1 l2 -> advances l2 l3 -> advances l1 l3.
Proof.
  intros [Hs1 Hc1 (n1 & Ht1 & Hf1) (p1 & Hp1)] [Hs2 Hc2 (n2 & Ht2 & Hf2) (p2 & Hp2)].
  split; [congruence|lia| |].
  - exists (n1 ++ n2)%list. rewrite Ht2, Ht1, app_assoc. split; [done|].
    by apply Forall_app.
  - exists (p1 ++ p2)%list. by rewrite Hp2, Hp1, app_assoc.
Qed.

Lemma moves_refl l : moves l l.
Proof. by split. Qed.

Lemma moves_trans l1 l2 l3 : moves l1 l2 -> moves l2 l3 -> moves l1 l3.
Proof. intros [] []. split; try congruence. lia. Qed.

Lemma moves_advances l l' : moves l l' -> advances l l'.
Proof.
  intros []. split; try done; exists []; rewrite app_nil_r; [|done].
  split; [done|constructor].
Qed.

Lemma step_moves l :
  Lexer.is_at_end l = false ->
  exists l', Lexer.step l = Some l'
    /\ moves l l'
    /\ Lexer.current l' = S (Lexer.current l)
    /\ Lexer.line l' = Lexer.line l
    /\ Lexer.column l' = Lexer.column l + 1.
Proof.
  intros Hend%is_at_end_false. destruct (get_Some _ _ Hend) as [c Hc].
  unfold Lexer.step, Lexer.advance. rewrite Hc. simpl.
  eexists. split; [done|]. repeat split; simpl; lia.
Qed.

(** A loop whose body moves forward ends within the length of the source. *)
Lemma while_moves (R : Lexer.t -> Lexer.t -> Prop) cond body :
  (forall l, R l l) ->
  (forall l1 l2 l3, R l1 l2 -> R l2 l3 -> R l1 l3) ->
  (forall l, cond l = true ->
     exists l', body l = Some l' /\ R l l'
       /\ Lexer.source l' = Lexer.source l
       /\ (Lexer.current l < Lexer.current l')%nat
       /\ Lexer.is_at_end l = false) ->
  forall fuel l,
    (Lexer.remaining l <= fuel)%nat ->
    exists l', Lexer.while fuel cond body l = Some l'
      /\ cond l' = false /\ R l l'
      /\ Lexer.source l' = Lexer.source l
      /\ (Lexer.current l <= Lexer.current l')%nat.
Proof.
  intros Hrefl Htrans Hbody. induction fuel as [|fuel IH]; intros l Hfuel.
  - simpl. destruct (cond l) eqn:Hcond; [|by eauto 10].
    destruct (Hbody l Hcond) as (l' & _ & _ & Hs & Hlt & Hend).
    apply is_at_end_false in Hend. unfold Lexer.remaining in Hfuel. lia.
  - simpl. destruct (cond l) eqn:Hcond; [|by eauto 10].
    destruct (Hbody l Hcond) as (l' & -> & HR & Hs & Hlt & Hend). simpl.
    apply is_at_end_false in Hend.
    destruct (IH l') as (l'' & Hw & Hc & HR' & Hs' & Hle').
    { unfold Lexer.remaining in *. rewrite Hs in *. lia. }
    exists l''. rewrite Hw. repeat split; eauto; [congruence|lia].
Qed.

Lemma advance_loop_moves cond l :
  (forall l, cond l = true -> Lexer.is_at_end l = false) ->
  exists l', Lexer.while (Lexer.remaining l) cond Lexer.step l = Some l'
    /\ cond l' = false /\ moves l l'
    /\ Lexer.line l' = Lexer.line l
    /\ Lexer.column l' - Z.of_nat (Lexer.current l')
       = Lexer.column l - Z.of_nat (Lexer.current l).
Proof.
  intros Hcond.
  destruct (while_moves
    (fun l l' => moves l l' /\ Lexer.line l' = Lexer.line l
       /\ Lexer.column l' - Z.of_nat (Lexer.current l')
          = Lexer.column l - Z.of_nat (Lexer.current l))
    cond Lexer.step) with (fuel := Lexer.remaining l) (l := l)
    as (l' & Hw & Hc & (Hm & Hl & Hcol) & _); [| | |done|by eauto 10].
  - intros l0. split; [apply moves_refl|done].
  - intros l1 l2 l3 (? & ? & ?) (? & ? & ?).
    split; [by eapply moves_trans|]. split; congruence.
  - intros l0 Hc0. destruct (step_moves l0 (Hcond _ Hc0))
      as (l' & Hs & Hm & Hcur & Hl & Hcol).
    exists l'. split; [done|]. split; [split; [done|split; [done|lia]]|].
    split; [apply Hm|]. split; [lia|]. by apply Hcond.
Qed.

Lemma add_token_advances ty v l :
  ty ≠ EOF -> advances l (Lexer.add_token ty v l).
Proof.
  intros Hty. split; simpl; try done.
  - eexists. split; [done|]. by repeat constructor.
  - exists []. by rewrite app_nil_r.
Qed.

Lemma print_advances d l : advances l (Lexer.print d l).
Proof.
  split; simpl; try done; eexists; [|done].
  rewrite app_nil_r. split; [done|constructor].
Qed.

Lemma keywords_not_EOF text : default IDENTIFIER (Lexer.keywords text) ≠ EOF.
Proof. unfold Lexer.keywords. repeat case_match; simpl; discriminate. Qed.

Lemma andb_negb_at_end (b : bool) l :
  b && negb (Lexer.is_at_end l) = true -> Lexer.is_at_end l = false.
Proof. intros [_ H]%andb_true_iff. by apply negb_true_iff. Qed.

Lemma identifier_advances l :
  exists l', Lexer.identifier l = Some l' /\ advances l l'.
Proof.
  unfold Lexer.identifier.
  edestruct (advance_loop_moves) as (l1 & -> & _ & Hm & _);
    [intros l0; apply andb_negb_at_end|].
  simpl. eexists. split; [done|].
  eapply advances_trans; [by apply moves_advances|].
  apply add_token_advances, keywords_not_EOF.
Qed.

Lemma digits_moves l :
  exists l', Lexer.digits l = Some l' /\ moves l l'.
Proof.
  unfold Lexer.digits.
  edestruct (advance_loop_moves) as (l1 & -> & _ & Hm & _);
    [intros l0; apply andb_negb_at_end|]. eauto.
Qed.

Lemma peek_at_end l : Lexer.is_at_end l = true -> Lexer.peek l = NUL.
Proof. unfold Lexer.peek. by intros ->. Qed.

(** [number] moves over the literal and then converts its text: it returns
    exactly when the conversion does. *)
Lemma number_spec l :
  exists l2, moves l l2
    /\ Lexer.number l
       = (v ← literal_value (Lexer.slice (Lexer.source l2) (Lexer.start l2)
                               (Lexer.current l2));
          Some (Lexer.add_token NUMBER (Some v) l2)).
Proof.
  unfold Lexer.number.
  destruct (digits_moves l) as (l1 & -> & Hm1). simpl.
  assert (exists l2,
    (if chr_eqb (Lexer.peek l1) "." && isdigit (Lexer.peek_next l1)
     then l ← Lexer.step l1; Lexer.digits l else Some l1) = Some l2
    /\ moves l1 l2) as (l2 & -> & Hm2).
  { destruct (chr_eqb (Lexer.peek l1) ".") eqn:Hdot; simpl;
      [|by eauto using moves_refl].
    destruct (isdigit (Lexer.peek_next l1)); [|by eauto using moves_refl].
    destruct (Lexer.is_at_end l1) eqn:Hend.
    { rewrite (peek_at_end _ Hend) in Hdot. discriminate. }
    destruct (step_moves l1 Hend) as (l' & -> & Hm & _). simpl.
    destruct (digits_moves l') as (l'' & -> & Hm').
    eauto using moves_trans. }
  exists l2. split; [by eapply moves_trans|]. simpl.
  unfold literal_value. case_match; [done|].
  by destruct (python_int _).
Qed.

Lemma number_advances l l' : Lexer.number l = Some l' -> advances l l'.
Proof.
  destruct (number_spec l) as (l2 & Hm & ->).
  destruct (literal_value _) as [v|]; [|done]. simpl. intros [= <-].
  eapply advances_trans; [by apply moves_advances|by apply add_token_advances].
Qed.

Lemma next_line_moves l : moves l (Lexer.next_line l).
Proof. by split. Qed.

(** The loop of [string]: it stops on the closing quote or at the end. *)
Lemma string_loop_moves q l :
  exists l',
    Lexer.while (Lexer.remaining l)
      (fun l => negb (chr_eqb (Lexer.peek l) q) && negb (Lexer.is_at_end l))
      (fun l => let l := if chr_eqb (Lexer.peek l) newline
                         then Lexer.next_line l else l in
                Lexer.step l) l = Some l'
    /\ (negb (chr_eqb (Lexer.peek l') q) && negb (Lexer.is_at_end l') = false)
    /\ moves l l'.
Proof.
  edestruct (while_moves moves) with (fuel := Lexer.remaining l) (l := l)
    as (l' & Hw & Hc & Hm & _);
    [apply moves_refl|apply moves_trans| |done|by eauto].
  intros l0 Hc0. apply andb_negb_at_end in Hc0.
  set (l1 := if chr_eqb (Lexer.peek l0) newline then Lexer.next_line l0 else l0).
  assert (moves l0 l1 /\ Lexer.current l1 = Lexer.current l0) as [Hm1 Hcur1].
  { unfold l1. case_match; split; (apply next_line_moves || apply moves_refl || done). }
  assert (Lexer.is_at_end l1 = false) as Hend1.
  { apply is_at_end_false. apply is_at_end_false in Hc0.
    destruct Hm1 as [-> _ _ _ _]. lia. }
  destruct (step_moves l1 Hend1) as (l' & Hs & Hm & Hcur & _).
  exists l'. split; [done|]. split; [by eapply moves_trans|].
  split; [destruct Hm, Hm1; congruence|]. split; [lia|done].
Qed.

Lemma string_advances q l :
  exists l', Lexer.string q l = Some l' /\ advances l l'.
Proof.
  unfold Lexer.string.
  destruct (string_loop_moves q l) as (l1 & Hw & _ & Hm).
  cbv zeta in Hw |- *. rewrite Hw. simpl.
  destruct (Lexer.is_at_end l1) eqn:Hend.
  - eexists. split; [done|].
    eapply advances_trans; [by apply moves_advances|apply print_advances].
  - destruct (step_moves l1 Hend) as (l2 & -> & Hm2 & _). simpl.
    eexists. split; [done|].
    eapply advances_trans; [apply moves_advances; by eapply moves_trans|].
    by apply add_token_advances.
Qed.

Lemma comment_moves l :
  exists l', Lexer.comment l = Some l' /\ moves l l'.
Proof.
  unfold Lexer.comment.
  edestruct (advance_loop_moves) as (l1 & -> & _ & Hm & _);
    [intros l0; apply andb_negb_at_end|]. eauto.
Qed.

Lemma one_or_two_advances second double single l :
  double ≠ EOF -> single ≠ EOF -> second ≠ NUL ->
  exists l', Lexer.one_or_two second double single l = Some l' /\ advances l l'.
Proof.
  intros Hd Hs Hnul. unfold Lexer.one_or_two.
  destruct (chr_eqb (Lexer.peek l) second) eqn:Hpeek.
  - destruct (Lexer.is_at_end l) eqn:Hend.
    { rewrite (peek_at_end _ Hend) in Hpeek.
      apply Ascii.eqb_eq in Hpeek. by destruct Hnul. }
    destruct (step_moves l Hend) as (l' & -> & Hm & _). simpl.
    eexists. split; [done|].
    eapply advances_trans; [by apply moves_advances|by apply add_token_advances].
  - eexists. split; [done|]. by apply add_token_advances.
Qed.

Lemma advance_Some l :
  Lexer.is_at_end l = false ->
  exists c l', Lexer.advance l = Some (c, l')
    /\ String.get (Lexer.current l) (Lexer.source l) = Some c
    /\ moves l l' /\ Lexer.current l' = S (Lexer.current l).
Proof.
  intros Hend%is_at_end_false. destruct (get_Some _ _ Hend) as [c Hc].
  unfold Lexer.advance. rewrite Hc. do 2 eexists. split; [done|].
  split; [done|]. split; [|done]. split; simpl; try done. lia.
Qed.

(** One call of [scan_token] before the end of the source: it returns,
    further in the source, unless the character is one [str.isdigit] accepts
    and [number] raises. *)
Lemma scan_token_outcome l :
  Lexer.is_at_end l = false ->
  (exists l', Lexer.scan_token l = Some l' /\ advances l l'
     /\ (Lexer.current l < Lexer.current l')%nat)
  \/ (exists c l1, Lexer.advance l = Some (c, l1)
        /\ isdigit c = true
        /\ Lexer.number l1 = None
        /\ Lexer.scan_token l = None).
Proof.
  intros Hend. destruct (advance_Some l Hend) as (c & l1 & Hadv & _ & Hm & Hcur).
  assert ((exists l', Lexer.scan_token l = Some l' /\ advances l1 l')
          \/ (isdigit c = true /\ Lexer.number l1 = None
              /\ Lexer.scan_token l = None)) as [(l' & Hscan & Hadv')|Hfail].
  { unfold Lexer.scan_token. rewrite Hadv. simpl.
    destruct (isspace c).
    { left. case_match; eauto using advances_refl, moves_advances, next_line_moves. }
    destruct (isalpha c || chr_eqb c "_"); [left; apply identifier_advances|].
    destruct (isdigit c).
    { destruct (Lexer.number l1) as [l'|] eqn:Hn; [left|by right].
      exists l'. split; [done|]. by apply number_advances. }
    left.
    repeat (case_match;
      [first [ apply string_advances
             | by apply one_or_two_advances
             | eexists; split; [done|]; by apply add_token_advances
             | idtac ]|]).
    all: try (eexists; split; [done|]; apply print_advances).
    - destruct (comment_moves l1) as (l' & -> & ?). eauto using moves_advances.
    - eexists; split; [done|]; by apply add_token_advances.
    - destruct (Lexer.is_at_end l1) eqn:Hend1.
      { match goal with H : chr_eqb (Lexer.peek l1) _ = true |- _ =>
          rewrite (peek_at_end _ Hend1) in H; discriminate end. }
      destruct (step_moves l1 Hend1) as (l' & -> & Hm' & _). simpl.
      eexists. split; [done|].
      eapply advances_trans; [by apply moves_advances|by apply add_token_advances]. }
  - left. exists l'. split; [done|]. split.
    + eapply advances_trans; [by apply moves_advances|done].
    + destruct Hadv' as [_ ? _ _]. lia.
  - right. exists c, l1. by destruct Hfail as (? & ? & ?).
Qed.

Lemma scan_token_advances l l' :
  Lexer.is_at_end l = false -> Lexer.scan_token l = Some l' ->
  advances l l' /\ (Lexer.current l < Lexer.current l')%nat.
Proof.
  intros Hend Hscan.
  destruct (scan_token_outcome l Hend)
    as [(l0 & Hscan0 & Hadv & Hlt)|(c & l1 & _ & _ & _ & Hnone)];
    [|congruence].
  rewrite Hscan in Hscan0. by injection Hscan0 as <-.
Qed.

(** A loop whose body moves forward or fails: within the length of the
    source it ends, or its body fails. *)
Lemma while_outcome (R : Lexer.t -> Lexer.t -> Prop) (F : Lexer.t -> Prop)
    cond body :
  (forall l, R l l) ->
  (forall l1 l2 l3, R l1 l2 -> R l2 l3 -> R l1 l3) ->
  (forall l, cond l = true ->
     Lexer.is_at_end l = false
     /\ ((exists l', body l = Some l' /\ R l l'
            /\ Lexer.source l' = Lexer.source l
            /\ (Lexer.current l < Lexer.current l')%nat)
         \/ (body l = None /\ F l))) ->
  forall fuel l,
    (Lexer.remaining l <= fuel)%nat ->
    (exists l', Lexer.while fuel cond body l = Some l'
       /\ cond l' = false /\ R l l')
    \/ (Lexer.while fuel cond body l = None
        /\ exists l0, R l l0 /\ cond l0 = true /\ F l0).
Proof.
  intros Hrefl Htrans Hbody. induction fuel as [|fuel IH]; intros l Hfuel.
  - simpl. destruct (cond l) eqn:Hcond; [|by eauto 10].
    destruct (Hbody l Hcond) as [Hend _].
    apply is_at_end_false in Hend. unfold Lexer.remaining in Hfuel. lia.
  - simpl. destruct (cond l) eqn:Hcond; [|by eauto 10].
    destruct (Hbody l Hcond) as [Hend [(l' & -> & HR & Hs & Hlt)|[-> HF]]].
    + simpl. apply is_at_end_false in Hend.
      destruct (IH l') as [(l'' & Hw & Hc & HR')|(Hw & l0 & HR' & Hc & HF)].
      { unfold Lexer.remaining in *. rewrite Hs in *. lia. }
      * left. exists l''. eauto.
      * right. split; [done|]. exists l0. eauto.
    + right. split; [done|]. exists l. eauto.
Qed.

(** The scan runs to the end of the source, or stops where [number]
    raises. *)
Lemma scan_loop_outcome fuel l :
  (Lexer.remaining l <= fuel)%nat ->
  (exists l', Lexer.scan_loop fuel l = Some l'
     /\ Lexer.is_at_end l' = true /\ advances l l')
  \/ (Lexer.scan_loop fuel l = None
      /\ exists l0 c l1, advances l l0
           /\ Lexer.advance (Lexer.set_start l0) = Some (c, l1)
           /\ isdigit c = true
           /\ Lexer.number l1 = None).
Proof.
  intros Hfuel. unfold Lexer.scan_loop.
  destruct (while_outcome advances
              (fun l0 => exists c l1,
                 Lexer.advance (Lexer.set_start l0) = Some (c, l1)
                 /\ isdigit c = true /\ Lexer.number l1 = None)
              (fun l => negb (Lexer.is_at_end l))
              (fun l => Lexer.scan_token (Lexer.set_start l)))
    with (fuel := fuel) (l := l)
    as [(l' & Hw & Hc & Hadv)|(Hw & l0 & Hadv & _ & c & l1 & Hfail)];
    [apply advances_refl|apply advances_trans| |done| |].
  - intros l0 Hc0. apply negb_true_iff in Hc0. split; [done|].
    destruct (scan_token_outcome (Lexer.set_start l0) Hc0)
      as [(l' & Hs & Hadv & Hlt)|(c & l1 & Hadv & Hd & Hn & Hs)].
    + left. exists l'. split; [done|]. split; [|split; [apply Hadv|exact Hlt]].
      destruct Hadv as [? ? ? ?]. by split.
    + right. split; [done|]. by exists c, l1.
  - left. exists l'. split; [done|]. split; [by apply negb_false_iff|done].
  - right. split; [done|]. by exists l0, c, l1.
Qed.

Lemma scan_loop_returns fuel l l' :
  (Lexer.remaining l <= fuel)%nat -> Lexer.scan_loop fuel l = Some l' ->
  Lexer.is_at_end l' = true /\ advances l l'.
Proof.
  intros Hfuel Hloop.
  destruct (scan_loop_outcome fuel l Hfuel)
    as [(l0 & Hloop0 & Hend & Hadv)|[Hnone _]]; [|congruence].
  rewrite Hloop in Hloop0. by injection Hloop0 as <-.
Qed.

(** When the lexer returns, the token list ends with the one end-of-input
    token. *)
Lemma tokenize_ends_with_eof src toks printed :
  Lexer.tokenize src = Some (toks, printed) ->
  exists body eof,
    toks = (body ++ [eof])%list
    /\ Token.type eof = EOF
    /\ Forall (fun tok => Token.type tok ≠ EOF) body.
Proof.
  unfold Lexer.tokenize.
  destruct (Lexer.scan_loop _ _) as [l|] eqn:Hloop; [|done]. simpl.
  intros [= <- <-].
  apply scan_loop_returns in Hloop as [_ [_ _ (new & Hnew & Hall) _]].
  2: { unfold Lexer.remaining. simpl. lia. }
  simpl in Hnew. rewrite Hnew. by do 2 eexists.
Qed.

(** ** Positions of tokens *)

(** C2, the code at the failing input: in the source made of a string
    literal with a newline in it followed by [x], the literal starts at line
    1, column 1 and [x] at line 2, column 4; the lexer gives the literal line
    2, column -1 and [x] line 2, column 5. The list does end with its one
    end-of-input token, and a newline outside a literal is counted rightly. *)
Theorem position_after_multiline_string :
  Lexer.tokenize two_line_string_then_x
  = Some ([Token.mk STRING (VStr ("a" +:+ String newline "b")) 2 (-1);
           Token.mk IDENTIFIER (VStr "x") 2 5;
           Token.mk EOF VNone 2 6], [])
  /\ position two_line_string_then_x 0 = (1, 1)
  /\ position two_line_string_then_x 6 = (2, 4)
  /\ Lexer.tokenize ("a" +:+ String newline "  x")
     = Some ([Token.mk IDENTIFIER (VStr "a") 1 1;
              Token.mk IDENTIFIER (VStr "x") 2 3;
              Token.mk EOF VNone 2 4], [])
  /\ position ("a" +:+ String newline "  x") 4 = (2, 3).
Proof. repeat split; vm_compute; reflexivity. Qed.

(** ** Lexical faults *)

Lemma peek_get l :
  Lexer.is_at_end l = false ->
  String.get (Lexer.current l) (Lexer.source l) = Some (Lexer.peek l).
Proof.
  intros Hend. unfold Lexer.peek. rewrite Hend.
  apply is_at_end_false in Hend. by destruct (get_Some _ _ Hend) as [c ->].
Qed.

Lemma get_lt (s : string) (n : nat) c :
  String.get n s = Some c -> (n < String.length s)%nat.
Proof.
  revert n. induction s as [|d s IH]; intros [|n] Hn; simpl in *;
    try done; try lia. apply IH in Hn. lia.
Qed.

Lemma advance_not_at_end l c l1 :
  Lexer.advance l = Some (c, l1) -> Lexer.is_at_end l = false.
Proof.
  unfold Lexer.advance. destruct (String.get _ _) eqn:Hget; [|done].
  intros _. apply is_at_end_false. by eapply get_lt.
Qed.



(** C8, the code at the failing input: the source made of the one character
    superscript two, which [str.isdigit] accepts and [int] refuses, is not
    tokenized: [scan_token] takes the character for the start of a number
    and the [ValueError] of [int] in [number] ends the lexer, where the claim
    has a diagnostic, the character skipped and a complete token list. The
    same happens after an assignment, after a diagnostic was printed for
    another character, and on a literal of 4301 digits, one more than [int]
    converts; the literal of 4300 digits is tokenized. On a character the
    lexer has no rule for and on an unterminated string the code does what
    the claim says. *)
Theorem lexer_aborts_on_superscript_digit :
  isdigit superscript_two = true
  /\ python_int (String superscript_two "") = None
  /\ Lexer.tokenize (String superscript_two "") = None
  /\ Lexer.tokenize ("x = 1" +:+ String superscript_two "") = None
  /\ Lexer.tokenize ("@ " +:+ String superscript_two " x") = None
  /\ Lexer.tokenize (ones 4301) = None
  /\ (exists n,
        Lexer.tokenize (ones 4300)
        = Some ([Token.mk NUMBER (VInt n) 1 1; Token.mk EOF VNone 1 4301], []))
  /\ Lexer.tokenize "@ x . $ 'abc"
     = Some ([Token.mk IDENTIFIER (VStr "x") 1 3; Token.mk EOF VNone 1 13],
             [UnexpectedCharacter "@" 1 2; UnexpectedCharacter "." 1 6;
              UnexpectedCharacter "$" 1 8; UnterminatedString 1]).
Proof.
  repeat split; try (vm_compute; reflexivity).
  eexists. vm_compute. reflexivity.
Qed.



(** ** Where the lexer places tokens *)

Lemma position_from_succ src i c line column :
  String.get i src = Some c ->
  position_from src (S i) line column
  = (if chr_eqb c newline
     then ((position_from src i line column).1 + 1, 1)
     else ((position_from src i line column).1,
           (position_from src i line column).2 + 1)).
Proof.
  revert i line column. induction src as [|d src IH]; intros i line column Hget;
    [by destruct i|].
  destruct i as [|i].
  - simpl in Hget. injection Hget as ->. simpl.
    destruct (chr_eqb c newline); by destruct src.
  - simpl in Hget.
    change (position_from (String d src) (S (S i)) line column)
      with (if chr_eqb d newline then position_from src (S i) (line + 1) 1
            else position_from src (S i) line (column + 1)).
    change (position_from (String d src) (S i) line column)
      with (if chr_eqb d newline then position_from src i (line + 1) 1
            else position_from src i line (column + 1)).
    destruct (chr_eqb d newline); by apply IH.
Qed.

Lemma substring_length (s : string) (n m : nat) :
  (n + m <= String.length s)%nat -> String.length (String.substring n m s) = m.
Proof.
  revert n m. induction s as [|c s IH]; intros n m Hle; simpl in *.
  - destruct n, m; simpl in *; lia.
  - destruct n as [|n]; [destruct m as [|m]; [done|]|]; simpl.
    + f_equal. apply (IH 0%nat). lia.
    + apply IH. lia.
Qed.

Lemma contains_char_get c s i :
  String.get i s = Some c -> contains_char c s = true.
Proof.
  revert i. induction s as [|d s IH]; intros i Hget; [by destruct i|].
  simpl. destruct i as [|i]; simpl in Hget.
  - injection Hget as ->. unfold chr_eqb. by rewrite Ascii.eqb_refl.
  - rewrite (IH _ Hget). by rewrite orb_true_r.
Qed.

Lemma substring_zero (s : string) (n : nat) : String.substring n 0 s = "".
Proof. revert n. induction s as [|c s IH]; intros [|n]; simpl; auto. Qed.

Lemma slice_placed src from to :
  (to <= String.length src)%nat ->
  String.substring from (String.length (Lexer.slice src from to)) src
  = Lexer.slice src from to.
Proof.
  intros Hto. unfold Lexer.slice.
  destruct (decide (from <= to)%nat) as [Hle|Hgt].
  - rewrite substring_length by lia. done.
  - replace (to - from)%nat with 0%nat by lia.
    by rewrite !substring_zero.
Qed.

Lemma while_preserves (I : Lexer.t -> Prop) cond body :
  (forall l l', cond l = true -> body l = Some l' -> I l -> I l') ->
  forall fuel l l', Lexer.while fuel cond body l = Some l' -> I l -> I l'.
Proof.
  intros Hbody. induction fuel as [|fuel IH]; intros l l' Hw HI; simpl in Hw.
  - destruct (cond l); by simplify_eq.
  - destruct (cond l) eqn:Hcond; [|by simplify_eq].
    destruct (body l) as [l1|] eqn:Hb; [|done]. simpl in Hw. eauto.
Qed.

Lemma step_placed l l' :
  Lexer.step l = Some l' ->
  chr_eqb (Lexer.peek l) newline = false ->
  placed l -> placed l'.
Proof.
  unfold Lexer.step, Lexer.advance.
  destruct (String.get (Lexer.current l) (Lexer.source l)) as [c|] eqn:Hget;
    [|done].
  intros [= <-] Hpeek [[Hcur Hbound Htoks] Hord Hstart].
  pose proof (get_lt _ _ _ Hget) as Hlt.
  assert (Lexer.peek l = c) as Hc.
  { unfold Lexer.peek, Lexer.is_at_end.
    rewrite (proj2 (Nat.leb_gt _ _) Hlt). by rewrite Hget. }
  rewrite Hc in Hpeek.
  split; [split|..]; simpl; try done; try lia.
  - unfold position in *. rewrite (position_from_succ _ _ _ _ _ Hget).
    by rewrite Hpeek, Hcur.
  - rewrite Hstart. f_equal. lia.
Qed.

Lemma advance_loop_placed cond fuel l l' :
  (forall l, cond l = true -> chr_eqb (Lexer.peek l) newline = false) ->
  Lexer.while fuel cond Lexer.step l = Some l' -> placed l -> placed l'.
Proof.
  intros Hcond. apply while_preserves.
  intros l0 l1 Hc Hs. eapply step_placed; [done|by apply Hcond].
Qed.

Lemma add_token_scanned ty v l :
  placed l ->
  match v with
  | None => ty ≠ STRING
  | Some (VFloat text) =>
      text = Lexer.slice (Lexer.source l) (Lexer.start l) (Lexer.current l)
      /\ contains_char "." text = true
      /\ all_chars (fun c => isdecimal c || chr_eqb c ".") text = true
  | Some (VInt n) =>
      python_int (Lexer.slice (Lexer.source l) (Lexer.start l)
                    (Lexer.current l)) = Some n
  | Some (VStr text) =>
      ty = STRING
      /\ text = Lexer.slice (Lexer.source l) (S (Lexer.start l))
                  (Lexer.current l - 1)
  | Some VNone => False
  end ->
  scanned (Lexer.add_token ty v l).
Proof.
  intros [[Hcur Hbound Htoks] Hord Hstart] Hv.
  split; simpl; try done.
  apply Forall_app. split; [done|]. constructor; [|constructor].
  exists (Lexer.start l). split; [done|]. simpl.
  destruct v as [[text|n|text|]|]; try done.
  - destruct Hv as [-> ->]. rewrite bool_decide_eq_true_2 by done.
    apply slice_placed. lia.
  - unfold python_int in Hv.
    destruct (negb (String.eqb _ "")) eqn:Hne; [|done].
    destruct (all_chars isdecimal _) eqn:Hdec; [|done].
    destruct (_ <=? _)%nat; [|done]. simpl in Hv. injection Hv as <-.
    eexists. split; [|split; [exact Hdec|split; [by apply slice_placed|done]]].
    intros Heq. rewrite Heq in Hne. discriminate Hne.
  - destruct Hv as (-> & Hdot & Hdec). split; [done|]. split; [done|].
    by apply slice_placed.
  - rewrite bool_decide_eq_false_2 by done. by apply slice_placed.
Qed.

Lemma not_newline_by_class (c : ascii) (b : bool) :
  (chr_eqb c newline = true -> b = false) -> b = true ->
  chr_eqb c newline = false.
Proof. destruct (chr_eqb c newline); [|done]. intros H Hb. rewrite H in Hb; done. Qed.

Lemma keywords_not_STRING text : default IDENTIFIER (Lexer.keywords text) ≠ STRING.
Proof. unfold Lexer.keywords. repeat case_match; simpl; discriminate. Qed.

Lemma identifier_scanned l l' :
  placed l -> Lexer.identifier l = Some l' -> scanned l'.
Proof.
  intros Hpl. unfold Lexer.identifier.
  destruct (Lexer.while _ _ _ _) as [l1|] eqn:Hw; [|done]. simpl.
  intros [= <-]. apply add_token_scanned; [|apply keywords_not_STRING].
  eapply advance_loop_placed; [|done|done].
  intros l0 [Hc _]%andb_true_iff. eapply not_newline_by_class; [|exact Hc].
  intros Hnl. apply Ascii.eqb_eq in Hnl. by rewrite Hnl.
Qed.

Lemma digits_placed l l' : placed l -> Lexer.digits l = Some l' -> placed l'.
Proof.
  intros Hpl Hd. eapply advance_loop_placed; [|exact Hd|done].
  intros l0 [Hc _]%andb_true_iff. eapply not_newline_by_class; [|exact Hc].
  intros Hnl. apply Ascii.eqb_eq in Hnl. by rewrite Hnl.
Qed.

Lemma convert_scanned l l' :
  placed l ->
  (let value := Lexer.slice (Lexer.source l) (Lexer.start l) (Lexer.current l) in
   if contains_char "." value
   then v ← python_float value; Some (Lexer.add_token NUMBER (Some v) l)
   else n ← python_int value; Some (Lexer.add_token NUMBER (Some (VInt n)) l))
  = Some l' ->
  scanned l'.
Proof.
  intros Hpl. cbv zeta. case_match.
  - unfold python_float.
    destruct (all_chars _ _) eqn:Hdec; [|done].
    destruct (_ <=? _)%nat; [|done].
    destruct (negb _); [|done]. simpl. intros [= <-].
    by apply add_token_scanned.
  - destruct (python_int _) as [n|] eqn:Hn; [|done]. simpl. intros [= <-].
    by apply add_token_scanned.
Qed.

Lemma number_scanned l l' :
  placed l -> Lexer.number l = Some l' -> scanned l'.
Proof.
  intros Hpl. unfold Lexer.number.
  destruct (Lexer.digits l) as [l1|] eqn:Hd1; [|done]. simpl.
  apply (digits_placed _ _ Hpl) in Hd1.
  destruct (chr_eqb (Lexer.peek l1) "." && isdigit (Lexer.peek_next l1)) eqn:Hdot.
  - destruct (Lexer.step l1) as [l2|] eqn:Hs; [|done]. simpl.
    destruct (Lexer.digits l2) as [l3|] eqn:Hd2; [|done]. simpl.
    assert (placed l3) as Hpl3.
    { eapply digits_placed; [|done]. eapply step_placed; [done| |done].
      apply andb_true_iff in Hdot as [Hdot _].
      eapply not_newline_by_class; [|exact Hdot].
      intros Hnl. apply Ascii.eqb_eq in Hnl. by rewrite Hnl. }
    by apply convert_scanned.
  - simpl. by apply convert_scanned.
Qed.

Lemma peek_not_newline l :
  no_newline (Lexer.source l) -> Lexer.is_at_end l = false ->
  chr_eqb (Lexer.peek l) newline = false.
Proof.
  intros Hnn Hend. destruct (chr_eqb (Lexer.peek l) newline) eqn:Hnl; [|done].
  apply Ascii.eqb_eq in Hnl. pose proof (peek_get l Hend) as Hget.
  rewrite Hnl in Hget. apply contains_char_get in Hget. congruence.
Qed.

Lemma string_loop_placed q fuel l l' :
  no_newline (Lexer.source l) ->
  Lexer.while fuel
    (fun l => negb (chr_eqb (Lexer.peek l) q) && negb (Lexer.is_at_end l))
    (fun l => Lexer.step (if chr_eqb (Lexer.peek l) newline
                          then Lexer.next_line l else l)) l = Some l' ->
  placed l -> placed l' /\ no_newline (Lexer.source l').
Proof.
  intros Hnn Hw Hpl.
  apply (while_preserves (fun l => placed l /\ no_newline (Lexer.source l))
           _ _) with (l' := l') in Hw; [done| |done].
  intros l0 l1 Hc Hs [Hpl0 Hnn0].
  apply andb_true_iff in Hc as [_ Hend%negb_true_iff].
  rewrite (peek_not_newline l0 Hnn0 Hend) in Hs.
  split; [eapply step_placed; [exact Hs|by apply peek_not_newline|done]|].
  unfold Lexer.step, Lexer.advance in Hs.
  destruct (String.get _ _); simpl in Hs; simplify_eq. exact Hnn0.
Qed.

Lemma print_scanned d l : scanned l -> scanned (Lexer.print d l).
Proof. intros []. by split. Qed.

Lemma string_scanned q l l' :
  no_newline (Lexer.source l) ->
  placed l -> Lexer.string q l = Some l' -> scanned l'.
Proof.
  intros Hnn Hpl. unfold Lexer.string. cbv zeta.
  destruct (Lexer.while _ _ _ _) as [l1|] eqn:Hw; [|done]. simpl.
  apply string_loop_placed in Hw as [Hpl1 Hnn1]; [|done..].
  destruct (Lexer.is_at_end l1) eqn:Hend.
  - intros [= <-]. apply print_scanned, Hpl1.
  - destruct (Lexer.step l1) as [l2|] eqn:Hs; [|done]. simpl. intros [= <-].
    apply add_token_scanned.
    + eapply step_placed; [done|by apply peek_not_newline|done].
    + split; [done|]. by rewrite Nat.add_1_r.
Qed.

Lemma comment_scanned l l' :
  placed l -> Lexer.comment l = Some l' -> scanned l'.
Proof.
  intros Hpl Hc. eapply pl_scanned, advance_loop_placed; [|exact Hc|done].
  intros l0 [Hnl _]%andb_true_iff. by apply negb_true_iff.
Qed.

Lemma one_or_two_scanned second double single l l' :
  second ≠ newline -> double ≠ STRING -> single ≠ STRING ->
  placed l -> Lexer.one_or_two second double single l = Some l' -> scanned l'.
Proof.
  intros Hsec Hd Hs Hpl. unfold Lexer.one_or_two.
  destruct (chr_eqb (Lexer.peek l) second) eqn:Hpeek.
  - destruct (Lexer.step l) as [l1|] eqn:Hstep; [|done]. simpl. intros [= <-].
    apply add_token_scanned; [|done]. eapply step_placed; [done| |done].
    apply Ascii.eqb_eq in Hpeek. rewrite Hpeek.
    by apply Ascii.eqb_neq.
  - intros [= <-]. by apply add_token_scanned.
Qed.

Lemma scan_token_scanned l l' :
  no_newline (Lexer.source l) \/ no_quote (Lexer.source l) ->
  scanned l -> Lexer.start l = Lexer.current l ->
  Lexer.scan_token l = Some l' -> scanned l'.
Proof.
  intros Hsrc [Hcur Hbound Htoks] Hstart. unfold Lexer.scan_token.
  destruct (Lexer.advance l) as [[c l1]|] eqn:Hadv; [|done]. simpl.
  pose proof Hadv as Hstep. unfold Lexer.advance in Hadv.
  destruct (String.get (Lexer.current l) (Lexer.source l)) as [c'|] eqn:Hget;
    [|done]. injection Hadv as -> <-.
  pose proof (get_lt _ _ _ Hget) as Hlt.
  assert (Lexer.peek l = c) as Hpeek.
  { unfold Lexer.peek, Lexer.is_at_end.
    rewrite (proj2 (Nat.leb_gt _ _) Hlt). by rewrite Hget. }
  set (l1 := Lexer.mk _ _ _ _ _ _ _).
  assert (chr_eqb c newline = false -> placed l1) as Hpl1.
  { intros Hnl. apply (step_placed l).
    - unfold Lexer.step. by rewrite Hstep.
    - by rewrite Hpeek.
    - split; [by split|lia|]. rewrite Hstart, Hcur. f_equal. lia. }
  destruct (isspace c) eqn:Hspace.
  { destruct (chr_eqb c newline) eqn:Hnl; intros [= <-].
    - split; simpl; [|lia|done]. unfold position in *.
      rewrite (position_from_succ _ _ _ _ _ Hget), Hnl, Hcur. done.
    - apply Hpl1. done. }
  assert (chr_eqb c newline = false) as Hnl.
  { destruct (chr_eqb c newline) eqn:Hnl; [|done].
    apply Ascii.eqb_eq in Hnl. rewrite Hnl in Hspace. discriminate Hspace. }
  specialize (Hpl1 Hnl).
  destruct (isalpha c || chr_eqb c "_"); [by apply identifier_scanned|].
  destruct (isdigit c); [by apply number_scanned|].
  destruct (chr_eqb c dquote || chr_eqb c squote) eqn:Hq.
  { apply string_scanned; [|done]. destruct Hsrc as [Hnn|[Hd Hs]]; [done|].
    apply orb_true_iff in Hq as [Hq|Hq]; apply Ascii.eqb_eq in Hq; subst c;
      apply contains_char_get in Hget; congruence. }
  repeat match goal with
  | |- (if ?b then _ else _) = Some _ -> _ => destruct b eqn:?
  end;
  try (apply one_or_two_scanned; done);
  try (intros [= <-]; by apply add_token_scanned);
  try (intros [= <-]; apply print_scanned, Hpl1);
  try (by apply comment_scanned).
  destruct (Lexer.step l1) as [l2|] eqn:Hs2; [|done]. simpl. intros [= <-].
  apply add_token_scanned; [|done]. eapply step_placed; [done| |done].
  match goal with H : chr_eqb (Lexer.peek l1) "." = true |- _ =>
    apply Ascii.eqb_eq in H; by rewrite H end.
Qed.

Lemma scan_loop_scanned fuel l l' :
  no_newline (Lexer.source l) \/ no_quote (Lexer.source l) ->
  scanned l -> Lexer.scan_loop fuel l = Some l' ->
  scanned l' /\ Lexer.source l' = Lexer.source l.
Proof.
  intros Hsrc Hsc Hloop. unfold Lexer.scan_loop in Hloop.
  apply (while_preserves
           (fun l0 => scanned l0 /\ Lexer.source l0 = Lexer.source l) _ _)
    with (l' := l') in Hloop; [done| |done].
  intros l0 l1 Hc Hs [Hsc0 Hsrc0]. apply negb_true_iff in Hc.
  destruct (scan_token_advances (Lexer.set_start l0) l1 Hc Hs) as [Hadv _].
  split; [|destruct Hadv as [-> _ _ _]; exact Hsrc0].
  eapply scan_token_scanned; [| | |exact Hs]; simpl.
  - by rewrite Hsrc0.
  - destruct Hsc0. by split.
  - done.
Qed.

(** X14: in a source that is on one line, or that holds no quote character,
    every token the lexer returns is placed at its lexeme: the line and
    column it carries are those of some character of the source, where the
    text of an identifier, keyword or operator, the digits of a number, or
    after its opening quote the content of a string literal are found; the
    end-of-input token carries the line and column just after the last
    character. *)
Theorem tokens_are_placed_at_their_lexemes
    (src : string) (toks : list Token.t) (printed : list diagnostic) :
  no_newline src \/ no_quote src ->
  Lexer.tokenize src = Some (toks, printed) ->
  exists body eof,
    toks = (body ++ [eof])%list
    /\ Forall (tok_placed src) body
    /\ Token.type eof = EOF
    /\ position src (String.length src) = (Token.line eof, Token.column eof).
Proof.
  intros Hsrc. unfold Lexer.tokenize.
  destruct (Lexer.scan_loop _ _) as [l|] eqn:Hloop; [|done]. simpl.
  intros [= <- <-].
  destruct (scan_loop_returns (String.length src) (Lexer.init src) l)
    as [Hend _]; [unfold Lexer.remaining; simpl; lia|done|].
  apply scan_loop_scanned in Hloop as [[Hcur Hbound Htoks] Hs]; [|done|].
  2: { split; simpl; [by destruct src|lia|constructor]. }
  simpl in Hs. rewrite Hs in *. apply is_at_end_true in Hend. rewrite Hs in Hend.
  do 2 eexists. split; [reflexivity|]. split; [exact Htoks|].
  split; [reflexivity|]. simpl.
  rewrite <- Hcur. f_equal. lia.
Qed.

Lemma tokens_are_placed_at_their_lexemes_witness :
  exists body eof,
    [Token.mk IDENTIFIER (VStr "x") 1 1; Token.mk ASSIGN (VStr "=") 2 2;
     Token.mk NUMBER (VInt 10) 2 4; Token.mk EOF VNone 2 6]
    = (body ++ [eof])%list
    /\ Forall (tok_placed ("x" +:+ String newline " = 10")) body.
Proof.
  destruct (tokens_are_placed_at_their_lexemes
              ("x" +:+ String newline " = 10")
              [Token.mk IDENTIFIER (VStr "x") 1 1; Token.mk ASSIGN (VStr "=") 2 2;
               Token.mk NUMBER (VInt 10) 2 4; Token.mk EOF VNone 2 6] [])
    as (body & eof & Hsplit & Hplaced & _).
  - right. split; reflexivity.
  - vm_compute. reflexivity.
  - exists body, eof. split; [exact Hsplit|exact Hplaced].
Defined.

(** ** Comments *)

(** X15: when the scan reaches [-] followed by a second [-] and no newline
    follows in the source, everything up to the end of the source is taken
    as a comment: the scan ends there with the tokens, the output and the
    line as they were. A [-] that is not followed by [-] becomes the
    subtraction token, with the text [-] and the position of the
    character. *)
Theorem comment_runs_to_end_of_source
    (fuel : nat) (l l1 : Lexer.t) :
  Lexer.advance (Lexer.set_start l) = Some ("-"%char, l1) ->
  (chr_eqb (Lexer.peek l1) "-" = true ->
   (forall i, (Lexer.current l < i)%nat ->
              String.get i (Lexer.source l) ≠ Some newline) ->
   exists l',
     Lexer.scan_loop (S fuel) l = Some l'
     /\ Lexer.is_at_end l' = true
     /\ Lexer.tokens l' = Lexer.tokens l
     /\ Lexer.printed l' = Lexer.printed l
     /\ Lexer.line l' = Lexer.line l)
  /\ (chr_eqb (Lexer.peek l1) "-" = false ->
      Lexer.scan_token (Lexer.set_start l)
      = Some (Lexer.mk (Lexer.source l)
                (Lexer.tokens l
                 ++ [Token.mk MINUS
                       (VStr (Lexer.slice (Lexer.source l) (Lexer.current l)
                                (S (Lexer.current l))))
                       (Lexer.line l) (Lexer.column l)])%list
                (Lexer.current l) (S (Lexer.current l))
                (Lexer.line l) (Lexer.column l + 1) (Lexer.printed l))).
Proof.
  intros Hadv.
  pose proof (advance_not_at_end _ _ _ Hadv) as Hend.
  change (Lexer.is_at_end (Lexer.set_start l)) with (Lexer.is_at_end l) in Hend.
  assert (l1 = Lexer.mk (Lexer.source l) (Lexer.tokens l) (Lexer.current l)
                 (S (Lexer.current l)) (Lexer.line l) (Lexer.column l + 1)
                 (Lexer.printed l)) as Hl1.
  { unfold Lexer.advance in Hadv. simpl in Hadv.
    destruct (String.get _ _); by simplify_eq. }
  split.
  - intros Hpeek Hnone.
    assert (Lexer.scan_token (Lexer.set_start l) = Lexer.comment l1) as Hscan.
    { unfold Lexer.scan_token. rewrite Hadv. simpl. by rewrite Hpeek. }
    unfold Lexer.comment in Hscan.
    destruct (advance_loop_moves
                (fun l => negb (chr_eqb (Lexer.peek l) newline)
                          && negb (Lexer.is_at_end l)) l1)
      as (l2 & Hw & Hc & Hm & Hline & _);
      [intros l0; apply andb_negb_at_end|].
    rewrite Hw in Hscan.
    assert (Lexer.is_at_end l2 = true) as Hend2.
    { destruct (Lexer.is_at_end l2) eqn:Hend2; [done|].
      rewrite andb_true_r in Hc. apply negb_false_iff, Ascii.eqb_eq in Hc.
      pose proof (peek_get l2 Hend2) as Hget. rewrite Hc in Hget.
      destruct (Hnone (Lexer.current l2)).
      - destruct Hm. rewrite Hl1 in *. simpl in *. lia.
      - destruct Hm as [Hs _ _ _ _]. rewrite Hs, Hl1 in Hget. exact Hget. }
    exists l2. split.
    + unfold Lexer.scan_loop. simpl. rewrite Hend. simpl. rewrite Hscan. simpl.
      destruct fuel; simpl; by rewrite Hend2.
    + destruct Hm as [_ _ _ Ht Hp]. rewrite Hl1 in *. simpl in *.
      by rewrite Hline.
  - intros Hpeek. unfold Lexer.scan_token. rewrite Hadv. simpl. rewrite Hpeek.
    rewrite Hl1. unfold Lexer.add_token. simpl. repeat f_equal. lia.
Qed.

Lemma comment_runs_to_end_of_source_witness :
  exists l',
    Lexer.scan_loop 5 (Lexer.mk "x -- y" [] 0 2 1 3 []) = Some l'
    /\ Lexer.is_at_end l' = true /\ Lexer.tokens l' = [].
Proof.
  destruct (proj1 (comment_runs_to_end_of_source 4
                     (Lexer.mk "x -- y" [] 0 2 1 3 [])
                     (Lexer.mk "x -- y" [] 2 3 1 4 []) eq_refl) eq_refl)
    as (l' & Hloop & Hend & Htok & _).
  - intros [|[|[|[|[|[|i]]]]]] Hi; simpl in *; try discriminate; lia.
  - exists l'. split; [exact Hloop|]. split; [exact Hend|exact Htok].
Defined.

(** ** Words *)

Lemma substring_full (s : string) (n : nat) :
  (String.length s <= n)%nat -> String.substring 0 n s = s.
Proof.
  revert n. induction s as [|c s IH]; intros [|n] Hn; simpl in *;
    try done; try lia. f_equal. apply IH. lia.
Qed.

Lemma all_chars_get P s i c :
  all_chars P s = true -> String.get i s = Some c -> P c = true.
Proof.
  revert i. induction s as [|d s IH]; intros i Hall Hget; [by destruct i|].
  simpl in Hall. apply andb_true_iff in Hall as [Hd Hall].
  destruct i as [|i]; simpl in Hget; [by simplify_eq|by eapply IH].
Qed.

Lemma word_start_class c :
  isalpha c || chr_eqb c "_" = true ->
  isspace c = false /\ chr_eqb c newline = false.
Proof.
  destruct c as [[] [] [] [] [] [] [] []]; vm_compute; intros H;
    (discriminate H || (split; reflexivity)).
Qed.

(** X16: a source that is one word, a letter or underscore followed by
    letters, digits and underscores only, is one token: the keyword when the
    whole word is a keyword and an identifier otherwise, with the word as
    text, at line 1, column 1, followed by the end-of-input token just after
    the word, and nothing is printed. *)
Theorem word_is_one_token (c : ascii) (cs : string) :
  isalpha c || chr_eqb c "_" = true ->
  all_chars word_char cs = true ->
  Lexer.tokenize (String c cs)
  = Some ([Token.mk (default IDENTIFIER (Lexer.keywords (String c cs)))
             (VStr (String c cs)) 1 1;
           Token.mk EOF VNone 1 (Z.of_nat (String.length (String c cs)) + 1)],
          []).
Proof.
  intros Hc Hcs. set (src := String c cs).
  destruct (word_start_class c Hc) as [Hspace Hnl].
  set (l1 := Lexer.mk src [] 0 1 1 2 []).
  assert (Lexer.scan_token (Lexer.set_start (Lexer.init src))
          = Lexer.identifier l1) as Hscan.
  { unfold Lexer.scan_token, Lexer.advance. simpl. by rewrite Hspace, Hc. }
  destruct (advance_loop_moves
              (fun l => (isalnum (Lexer.peek l) || chr_eqb (Lexer.peek l) "_")
                        && negb (Lexer.is_at_end l)) l1)
    as (l2 & Hw & Hcond & Hm & Hline & Hcol);
    [intros l0; apply andb_negb_at_end|].
  assert (placed l1) as Hpl1.
  { split; [split|..]; simpl; try lia; try constructor.
    all: unfold position; simpl; fold (chr_eqb c newline);
      try rewrite Hnl; by destruct cs. }
  assert (placed l2) as Hpl2.
  { eapply advance_loop_placed; [|exact Hw|exact Hpl1].
    intros l0 [Hc0 _]%andb_true_iff. eapply not_newline_by_class; [|exact Hc0].
    intros Heq. apply Ascii.eqb_eq in Heq. by rewrite Heq. }
  destruct Hm as [Hsrc Hstart _ Htoks Hprinted]. simpl in *.
  assert (Lexer.is_at_end l2 = true) as Hend.
  { destruct (Lexer.is_at_end l2) eqn:Hend; [done|].
    rewrite andb_true_r in Hcond. pose proof (peek_get l2 Hend) as Hget.
    rewrite Hsrc in Hget.
    assert (word_char (Lexer.peek l2) = true) as Hword;
      [|unfold word_char in Hword; by rewrite Hword in Hcond].
    destruct (Lexer.current l2) as [|i] eqn:Hcur.
    - simpl in Hget. injection Hget as <-. unfold word_char, isalnum.
      apply orb_true_iff in Hc as [->| ->]; [done|by rewrite orb_true_r].
    - simpl in Hget. by eapply all_chars_get. }
  assert (Lexer.current l2 = String.length src) as Hcur.
  { apply is_at_end_true in Hend. destruct Hpl2 as [[_ Hb _] _ _].
    rewrite Hsrc in *. lia. }
  unfold Lexer.tokenize, Lexer.scan_loop.
  change (String.length src) with (S (String.length cs)).
  simpl Lexer.while. rewrite Hscan. unfold Lexer.identifier. rewrite Hw. simpl.
  assert (forall fuel l,
    Lexer.is_at_end l = true ->
    Lexer.while fuel (fun l => negb (Lexer.is_at_end l))
      (fun l => Lexer.scan_token (Lexer.set_start l)) l = Some l) as Hstop.
  { intros fuel l Hl. destruct fuel; simpl; by rewrite Hl. }
  rewrite Hstop by exact Hend. simpl.
  rewrite Htoks, Hprinted, Hline, Hstart, Hsrc, Hcur. simpl.
  unfold Lexer.slice. rewrite Nat.sub_0_r.
  change (String c (String.substring 0 (String.length cs) cs))
    with (String.substring 0 (String.length src) src).
  rewrite substring_full by done.
  do 4 f_equal.
  - f_equal. rewrite Hcur in Hcol. change (String.length src) with
      (S (String.length cs)) in Hcol. lia.
  - do 2 f_equal. rewrite Hcur in Hcol. change (String.length src) with
      (S (String.length cs)) in Hcol. lia.
Qed.

Lemma word_is_one_token_witness :
  Lexer.tokenize "iffy"
  = Some ([Token.mk IDENTIFIER (VStr "iffy") 1 1; Token.mk EOF VNone 1 5], [])
  /\ Lexer.tokenize "if"
     = Some ([Token.mk IF (VStr "if") 1 1; Token.mk EOF VNone 1 3], []).
Proof.
  split.
  - apply (word_is_one_token "i" "ffy"); reflexivity.
  - apply (word_is_one_token "i" "f"); reflexivity.
Defined.

(** ** Number literals *)

Lemma append_cons c (s t : string) : (String c s +:+ t)%string = String c (s +:+ t).
Proof. reflexivity. Qed.

Lemma substring_snoc (s : string) (n m : nat) c :
  String.get (n + m) s = Some c ->
  String.substring n (S m) s = (String.substring n m s +:+ String c "")%string.
Proof.
  revert n m. induction s as [|d s IH]; intros n m Hget; [by destruct n, m|].
  destruct n as [|n].
  - destruct m as [|m]; simpl in *.
    + injection Hget as ->. by rewrite substring_zero.
    + rewrite append_cons. f_equal. by apply (IH 0%nat).
  - simpl in *. by apply IH.
Qed.

Lemma slice_snoc src from to c :
  (from <= to)%nat -> String.get to src = Some c ->
  Lexer.slice src from (S to) = (Lexer.slice src from to +:+ String c "")%string.
Proof.
  intros Hle Hget. unfold Lexer.slice.
  replace (S to - from)%nat with (S (to - from)) by lia.
  apply substring_snoc. by replace (from + (to - from))%nat with to by lia.
Qed.

Lemma all_chars_app P (s t : string) :
  all_chars P (s +:+ t) = all_chars P s && all_chars P t.
Proof.
  induction s as [|c s IH]; [done|].
  rewrite append_cons. simpl. by rewrite IH, andb_assoc.
Qed.

Lemma count_char_app c (s t : string) :
  count_char c (s +:+ t) = (count_char c s + count_char c t)%nat.
Proof.
  induction s as [|d s IH]; [done|].
  rewrite append_cons. simpl. rewrite IH. lia.
Qed.

Lemma get_app_first (s t : string) c :
  String.get 0 s = Some c -> String.get 0 (s +:+ t) = Some c.
Proof. by destruct s. Qed.

Lemma count_char_one c d :
  count_char c (String d "") = if chr_eqb c d then 1%nat else 0%nat.
Proof. simpl. destruct (chr_eqb c d); reflexivity. Qed.

Lemma digit_is_no_dot c : isdigit c = true -> chr_eqb "." c = false.
Proof.
  intros Hd. destruct (chr_eqb "." c) eqn:Hdot; [|done].
  apply Ascii.eqb_eq in Hdot. subst c. vm_compute in Hd. discriminate Hd.
Qed.

Lemma step_slice l l' :
  Lexer.step l = Some l' -> (Lexer.start l <= Lexer.current l)%nat ->
  Lexer.is_at_end l = false
  /\ Lexer.source l' = Lexer.source l
  /\ Lexer.start l' = Lexer.start l
  /\ Lexer.current l' = S (Lexer.current l)
  /\ Lexer.slice (Lexer.source l') (Lexer.start l') (Lexer.current l')
     = (Lexer.slice (Lexer.source l) (Lexer.start l) (Lexer.current l)
        +:+ String (Lexer.peek l) "")%string.
Proof.
  intros Hs Hle. unfold Lexer.step in Hs.
  destruct (Lexer.advance l) as [[c l1]|] eqn:Hadv; [|done].
  simpl in Hs. injection Hs as ->.
  pose proof (advance_not_at_end _ _ _ Hadv) as Hend.
  pose proof (peek_get l Hend) as Hget.
  unfold Lexer.advance in Hadv. rewrite Hget in Hadv. injection Hadv as _ <-.
  simpl. repeat split; try done. by apply slice_snoc.
Qed.

Lemma in_literal_le k k' l : (k <= k')%nat -> in_literal k l -> in_literal k' l.
Proof. intros Hle []. split; try done. lia. Qed.

Lemma step_in_literal k l l' :
  Lexer.step l = Some l' -> isdigit (Lexer.peek l) = true ->
  in_literal k l -> in_literal k l'.
Proof.
  intros Hs Hd [Hord Hb (c & Hc & Hcd) Hall Hdots].
  destruct (step_slice l l' Hs) as (Hend & Hsrc & Hst & Hcur & Hslice); [lia|].
  apply is_at_end_false in Hend.
  split; rewrite ?Hslice; rewrite ?Hsrc, ?Hst, ?Hcur; try lia.
  - exists c. split; [by apply get_app_first|done].
  - rewrite all_chars_app, Hall. simpl. by rewrite Hd.
  - rewrite count_char_app, count_char_one, (digit_is_no_dot _ Hd). lia.
Qed.

Lemma step_over_dot l l' :
  Lexer.step l = Some l' -> chr_eqb (Lexer.peek l) "." = true ->
  in_literal 0 l -> in_literal 1 l'.
Proof.
  intros Hs Hdot [Hord Hb (c & Hc & Hcd) Hall Hdots].
  destruct (step_slice l l' Hs) as (Hend & Hsrc & Hst & Hcur & Hslice); [lia|].
  apply is_at_end_false in Hend.
  split; rewrite ?Hslice; rewrite ?Hsrc, ?Hst, ?Hcur; try lia.
  - exists c. split; [by apply get_app_first|done].
  - rewrite all_chars_app, Hall. simpl. by rewrite Hdot, orb_true_r.
  - rewrite count_char_app, count_char_one. destruct (chr_eqb "." _); lia.
Qed.

Lemma digits_in_literal k l l' :
  Lexer.digits l = Some l' -> in_literal k l -> in_literal k l'.
Proof.
  unfold Lexer.digits. apply while_preserves.
  intros l0 l1 [Hd _]%andb_true_iff Hs. by apply step_in_literal.
Qed.

(** The first digit of a literal, just read by [scan_token]. *)
Lemma advance_in_literal l c l1 :
  Lexer.advance (Lexer.set_start l) = Some (c, l1) -> isdigit c = true ->
  in_literal 0 l1 /\ Lexer.source l1 = Lexer.source l.
Proof.
  unfold Lexer.advance. simpl.
  destruct (String.get (Lexer.current l) (Lexer.source l)) as [c'|] eqn:Hget;
    [|done].
  intros [= -> <-] Hd. pose proof (get_lt _ _ _ Hget) as Hlt.
  split; [|done].
  assert (Lexer.slice (Lexer.source l) (Lexer.current l) (S (Lexer.current l))
          = String c "") as Hslice.
  { rewrite (slice_snoc _ _ _ c (Nat.le_refl _) Hget). unfold Lexer.slice.
    by rewrite Nat.sub_diag, substring_zero. }
  split; cbn [Lexer.source Lexer.start Lexer.current]; rewrite ?Hslice;
    try lia.
  - by exists c.
  - cbn [all_chars]. by rewrite Hd.
  - rewrite count_char_one, (digit_is_no_dot _ Hd). lia.
Qed.

(** [number] converts the text of a literal. *)
Lemma number_converts_literal l :
  in_literal 0 l ->
  exists l2, moves l l2 /\ in_literal 1 l2
    /\ Lexer.number l
       = (v ← literal_value (Lexer.slice (Lexer.source l2) (Lexer.start l2)
                               (Lexer.current l2));
          Some (Lexer.add_token NUMBER (Some v) l2)).
Proof.
  intros Hlit. unfold Lexer.number.
  destruct (digits_moves l) as (l1 & Hd1 & Hm1). rewrite Hd1. simpl.
  pose proof (digits_in_literal _ _ _ Hd1 Hlit) as Hlit1.
  assert (forall l2,
    (let value := Lexer.slice (Lexer.source l2) (Lexer.start l2)
                    (Lexer.current l2) in
     if contains_char "." value
     then v ← python_float value; Some (Lexer.add_token NUMBER (Some v) l2)
     else n ← python_int value; Some (Lexer.add_token NUMBER (Some (VInt n)) l2))
    = (v ← literal_value (Lexer.slice (Lexer.source l2) (Lexer.start l2)
                            (Lexer.current l2));
       Some (Lexer.add_token NUMBER (Some v) l2))) as Hconv.
  { intros l2. cbv zeta. unfold literal_value. case_match; [done|].
    by destruct (python_int _). }
  destruct (chr_eqb (Lexer.peek l1) "." && isdigit (Lexer.peek_next l1)) eqn:Hdot.
  - apply andb_true_iff in Hdot as [Hdot _].
    destruct (Lexer.is_at_end l1) eqn:Hend.
    { rewrite (peek_at_end _ Hend) in Hdot. discriminate. }
    destruct (step_moves l1 Hend) as (l' & Hs & Hm & _). rewrite Hs. simpl.
    destruct (digits_moves l') as (l'' & Hd2 & Hm'). rewrite Hd2. simpl.
    exists l''. split; [eauto using moves_trans|]. split; [|apply Hconv].
    eapply digits_in_literal; [exact Hd2|]. by eapply step_over_dot.
  - simpl. exists l1. split; [done|]. split; [|apply Hconv].
    eapply in_literal_le; [|exact Hlit1]. lia.
Qed.

(** The lexer returns a token list that ends with the one end-of-input
    token, or [int] or [float] raised on the text of a literal. *)
Lemma tokenize_outcome src :
  (exists toks eof printed,
     Lexer.tokenize src = Some ((toks ++ [eof])%list, printed)
     /\ Token.type eof = EOF
     /\ Forall (fun tok => Token.type tok ≠ EOF) toks)
  \/ (Lexer.tokenize src = None
      /\ exists start stop,
           (stop <= String.length src)%nat
           /\ literal_text (Lexer.slice src start stop)
           /\ literal_value (Lexer.slice src start stop) = None).
Proof.
  unfold Lexer.tokenize.
  destruct (scan_loop_outcome (String.length src) (Lexer.init src))
    as [(l & -> & _ & [_ _ (new & Hnew & Hall) _])
       |(-> & l0 & c & l1 & [Hsrc _ _ _] & Hadv & Hd & Hnone)].
  { unfold Lexer.remaining. simpl. lia. }
  - left. simpl. do 3 eexists. split; [done|]. split; [done|].
    simpl in Hnew. by rewrite Hnew.
  - right. split; [done|].
    destruct (advance_in_literal _ _ _ Hadv Hd) as [Hlit Hsrc1].
    destruct (number_converts_literal l1 Hlit)
      as (l2 & [Hsrc2 _ _ _ _] & [_ Hb Hfirst Hchars Hdots] & Hnum).
    rewrite Hnum in Hnone.
    assert (Lexer.source l2 = src) as Hs by (simpl in Hsrc; congruence).
    rewrite Hs in *.
    exists (Lexer.start l2), (Lexer.current l2). split; [done|].
    split; [by split|]. by destruct (literal_value _).
Qed.

Lemma chr_eqb_sym c d : chr_eqb c d = chr_eqb d c.
Proof. apply Ascii.eqb_sym. Qed.

Lemma decimal_text (value : string) :
  all_chars (fun c => isdigit c || chr_eqb c ".") value = true ->
  decimal_digits_only value ->
  all_chars (fun c => isdecimal c || chr_eqb c ".") value = true.
Proof.
  unfold decimal_digits_only.
  induction value as [|d s IH]; [done|]. cbn [all_chars].
  intros [Hd Hs]%andb_true_iff [Hd' Hs']%andb_true_iff.
  rewrite IH by done. rewrite andb_true_r.
  destruct (isdigit d); simpl in Hd, Hd'; [by rewrite Hd'|].
  by rewrite Hd, orb_true_r.
Qed.

Lemma decimal_without_dot (value : string) :
  all_chars (fun c => isdecimal c || chr_eqb c ".") value = true ->
  contains_char "." value = false ->
  all_chars isdecimal value = true.
Proof.
  induction value as [|d s IH]; [done|]. cbn [all_chars contains_char].
  intros [Hd Hs]%andb_true_iff [Hdot Hno]%orb_false_iff.
  rewrite IH by done. rewrite andb_true_r.
  rewrite chr_eqb_sym, Hdot, orb_false_r in Hd. exact Hd.
Qed.

(** On the text of a literal whose digits are all decimal, [int] and [float]
    raise only for more digits than [int] converts. *)
Lemma literal_value_raises value :
  literal_text value -> literal_value value = None ->
  decimal_digits_only value -> (int_max_str_digits < String.length value)%nat.
Proof.
  intros ((c & Hc & Hcd) & Hall & Hdots) Hnone Hdec.
  pose proof (decimal_text value Hall Hdec) as Hok.
  destruct value as [|d s]; [done|]. simpl in Hc. injection Hc as ->.
  unfold literal_value in Hnone.
  destruct (contains_char "." (String c s)) eqn:Hdot.
  - unfold python_float in Hnone. rewrite Hok in Hnone.
    rewrite (proj2 (Nat.leb_le _ _) Hdots) in Hnone.
    cbn [all_chars] in Hnone. rewrite (digit_is_no_dot _ Hcd) in Hnone.
    discriminate Hnone.
  - unfold python_int in Hnone.
    rewrite (decimal_without_dot _ Hok Hdot) in Hnone.
    change (String.eqb (String c s) "") with false in Hnone.
    cbn [negb andb] in Hnone.
    destruct (_ <=? _)%nat eqn:Hlen; [done|].
    by apply Nat.leb_gt in Hlen.
Qed.

Lemma all_chars_substring P (s : string) (n m : nat) :
  all_chars P s = true -> all_chars P (String.substring n m s) = true.
Proof.
  revert n m. induction s as [|c s IH]; intros n m Hall; [by destruct n, m|].
  cbn [all_chars] in Hall. apply andb_true_iff in Hall as [Hc Hs].
  destruct n as [|n]; [destruct m as [|m]; [done|]|]; simpl.
  - rewrite Hc. by apply IH.
  - by apply IH.
Qed.

Lemma substring_length_le (s : string) (n m : nat) :
  (String.length (String.substring n m s) <= String.length s)%nat.
Proof.
  revert n m. induction s as [|c s IH]; intros n m; [by destruct n, m|].
  destruct n as [|n]; [destruct m as [|m]; simpl; [lia|]|]; simpl.
  - specialize (IH 0%nat m). lia.
  - specialize (IH n m). lia.
Qed.

(** X20: a source in which every character [str.isdigit] accepts is a
    decimal digit, and of at most as many characters as [int] converts
    digits, is tokenized whatever else it holds: the lexer returns a token
    list that ends with the one end-of-input token, together with what was
    printed. *)
Theorem lexer_returns_on_decimal_sources (src : string) :
  decimal_digits_only src ->
  (String.length src <= int_max_str_digits)%nat ->
  exists toks eof printed,
    Lexer.tokenize src = Some ((toks ++ [eof])%list, printed)
    /\ Token.type eof = EOF
    /\ Forall (fun tok => Token.type tok ≠ EOF) toks.
Proof.
  intros Hdec Hlen.
  destruct (tokenize_outcome src)
    as [Hret|(_ & start & stop & _ & Htext & Hnone)]; [done|].
  apply literal_value_raises in Hnone; [|done|].
  - pose proof (substring_length_le src start (stop - start)) as Hle.
    unfold Lexer.slice in Hnone. lia.
  - by apply all_chars_substring.
Qed.

Lemma lexer_returns_on_decimal_sources_witness :
  exists toks eof printed,
    Lexer.tokenize "x = 1.5 @ 'abc"
    = Some ((toks ++ [eof])%list, printed)
    /\ Token.type eof = EOF
    /\ Forall (fun tok => Token.type tok ≠ EOF) toks.
Proof.
  apply (lexer_returns_on_decimal_sources "x = 1.5 @ 'abc").
  - reflexivity.
  - unfold int_max_str_digits. simpl. lia.
Defined.

(** X21: the lexer raises only in [number]: when a source is not tokenized,
    some stretch of it is the text of a number literal, a character
    [str.isdigit] accepts followed by such characters and at most one [.],
    on which the conversion by [int] or [float] raises. *)
Theorem lexer_raises_only_in_number (src : string) :
  Lexer.tokenize src = None ->
  exists start stop,
    (stop <= String.length src)%nat
    /\ literal_text (Lexer.slice src start stop)
    /\ literal_value (Lexer.slice src start stop) = None.
Proof.
  intros Hnone.
  destruct (tokenize_outcome src) as [(toks & eof & printed & Hret & _)|[_ H]];
    [congruence|exact H].
Qed.

Lemma lexer_raises_only_in_number_witness :
  exists start stop,
    (stop <= 5)%nat
    /\ literal_text (Lexer.slice ("x = " +:+ String superscript_two "") start stop)
    /\ literal_value (Lexer.slice ("x = " +:+ String superscript_two "") start stop)
       = None.
Proof.
  apply (lexer_raises_only_in_number ("x = " +:+ String superscript_two "")).
  vm_compute. reflexivity.
Defined.
